(** * Latest-release extraction of the documentation-automation script

    A shallow embedding of [scripts/docs-automation/src/index.ts]:
    [extractLatestRelease], the regular expression it applies, the
    string operations it calls ([matchAll], [slice], [trim]) and the
    part of [main] that loops over the packages. *)

From Stdlib Require Import String Ascii.
From Stdlib Require Import NArith Arith Bool Lia Sorted List.
Import ListNotations.

(** ** JavaScript strings

    A JavaScript string is a sequence of UTF-16 code units. *)

Definition char16 := N.
Definition jsstring := list char16.

(** [js "abc"] is the JavaScript string of an ASCII literal. *)
Definition js (s : string) : jsstring :=
  map N_of_ascii (list_ascii_of_string s).

Definition LF : char16 := 10%N.
Definition CR : char16 := 13%N.
Definition LS : char16 := 8232%N. (* U+2028 *)
Definition PS : char16 := 8233%N. (* U+2029 *)

(** LineTerminator of ECMAScript. *)
Definition isLineTerminator (c : char16) : bool :=
  (c =? LF)%N || (c =? CR)%N || (c =? LS)%N || (c =? PS)%N.

(** WhiteSpace of ECMAScript: TAB, VT, FF, ZWNBSP and the Unicode
    space separators. *)
Definition isWhiteSpace (c : char16) : bool :=
  (c =? 9)%N || (c =? 11)%N || (c =? 12)%N || (c =? 65279)%N ||
  (c =? 32)%N || (c =? 160)%N || (c =? 5760)%N ||
  ((8192 <=? c)%N && (c <=? 8202)%N) ||
  (c =? 8239)%N || (c =? 8287)%N || (c =? 12288)%N.

(** What [String.prototype.trim] strips. *)
Definition isTrimmed (c : char16) : bool :=
  isWhiteSpace c || isLineTerminator c.

Fixpoint trimStart (s : jsstring) : jsstring :=
  match s with
  | c :: s' => if isTrimmed c then trimStart s' else s
  | [] => []
  end.

Definition trimEnd (s : jsstring) : jsstring :=
  rev (trimStart (rev s)).

(** [s.trim()] *)
Definition trim (s : jsstring) : jsstring :=
  trimEnd (trimStart s).

(** [s.slice(from, to)] for non-negative integer arguments: both are
    clamped to the length, and the result is empty when [to <= from]. *)
Definition slice (s : jsstring) (from to : nat) : jsstring :=
  let len := length s in
  let from' := Nat.min from len in
  let to' := Nat.min to len in
  firstn (to' - from') (skipn from' s).

(** ** Regular expressions

    The fragment of ECMAScript patterns that the script uses, with the
    backtracking semantics of the language specification: a matcher
    takes a state and a continuation, and a quantifier retries the
    continuation at each shorter choice. There is one capturing group. *)

Inductive Regex : Type :=
| RClass (p : char16 -> bool)   (* a class or escape such as [\d] *)
| RBol                          (* [^] under the [m] flag *)
| RSeq (r1 r2 : Regex)
| ROpt (r : Regex)              (* [r?], greedy *)
| RPlus (r : Regex)             (* [r+], greedy *)
| RGroup (r : Regex).           (* [( r )], capturing group 1 *)

(** A pattern character. *)
Definition RChar (c : char16) : Regex := RClass (N.eqb c).

Record MatchState : Type := mkState {
  endIndex : nat;
  captures : option (nat * nat)   (* start and end offsets of group 1 *)
}.

Definition MatchResult := option MatchState.
Definition Continuation := MatchState -> MatchResult.
Definition Matcher := MatchState -> Continuation -> MatchResult.

Fixpoint hasGroup (r : Regex) : bool :=
  match r with
  | RClass _ | RBol => false
  | RSeq r1 r2 => hasGroup r1 || hasGroup r2
  | ROpt r1 | RPlus r1 => hasGroup r1
  | RGroup _ => true
  end.

(** Each iteration of a quantified atom starts with the captures of the
    groups inside the atom undefined. *)
Definition resetCaptures (r : Regex) (x : MatchState) : MatchState :=
  if hasGroup r then mkState (endIndex x) None else x.

(** [^] with the [m] flag: at offset 0, or just after a line
    terminator. *)
Definition isLineStart (Input : jsstring) (e : nat) : bool :=
  match e with
  | O => true
  | S e' => match nth_error Input e' with
            | Some c => isLineTerminator c
            | None => false
            end
  end.

(** RepeatMatcher for min = 0 and no upper bound, greedy: try one more
    iteration of [m], which must consume something, and fall back on
    the continuation. An iteration consumes at least one code unit, so
    [fuel] = the number of code units left is never exhausted before
    the input is. *)
Fixpoint RepeatStar (m : Matcher) (reset : MatchState -> MatchState)
    (c : Continuation) (fuel : nat) (x : MatchState) : MatchResult :=
  match fuel with
  | O => c x
  | S fuel' =>
      match m (reset x)
              (fun y => if endIndex y =? endIndex x then None
                        else RepeatStar m reset c fuel' y) with
      | Some z => Some z
      | None => c x
      end
  end.

Fixpoint compile (r : Regex) (Input : jsstring) (x : MatchState)
    (c : Continuation) {struct r} : MatchResult :=
  match r with
  | RClass p =>
      match nth_error Input (endIndex x) with
      | Some ch => if p ch then c (mkState (S (endIndex x)) (captures x))
                   else None
      | None => None
      end
  | RBol => if isLineStart Input (endIndex x) then c x else None
  | RSeq r1 r2 => compile r1 Input x (fun y => compile r2 Input y c)
  | ROpt r1 =>
      match compile r1 Input (resetCaptures r1 x)
              (fun y => if endIndex y =? endIndex x then None else c y) with
      | Some z => Some z
      | None => c x
      end
  | RPlus r1 =>
      compile r1 Input (resetCaptures r1 x)
        (fun y => RepeatStar (compile r1 Input) (resetCaptures r1) c
                    (length Input - endIndex y) y)
  | RGroup r1 =>
      compile r1 Input x
        (fun y => c (mkState (endIndex y) (Some (endIndex x, endIndex y))))
  end.

(** One attempt of the pattern at offset [i]. *)
Definition matchAt (r : Regex) (Input : jsstring) (i : nat) : MatchResult :=
  compile r Input (mkState i None) (fun y => Some y).

(** An element of the array [matchAll] yields: [m.index], [m[0]] and
    [m[1]] ([None] is [undefined]). *)
Record MatchArray : Type := mkMatch {
  index : nat;
  group0 : jsstring;
  group1 : option jsstring
}.

Definition toMatchArray (Input : jsstring) (i : nat) (y : MatchState)
  : MatchArray :=
  mkMatch i (slice Input i (endIndex y))
    (match captures y with
     | Some (a, b) => Some (slice Input a b)
     | None => None
     end).

(** The iteration of [matchAll] for a global, non-sticky pattern, from
    [lastIndex]: the pattern is tried at [lastIndex], [lastIndex + 1],
    ... until it matches or [lastIndex] passes the end of the input; a
    match sets [lastIndex] to its end, one further when it is empty.
    [lastIndex] grows at each step, so [fuel] = length + 2 is enough. *)
Fixpoint matchAllFrom (fuel : nat) (r : Regex) (Input : jsstring)
    (lastIndex : nat) : list MatchArray :=
  match fuel with
  | O => []
  | S fuel' =>
      if length Input <? lastIndex then []
      else match matchAt r Input lastIndex with
           | None => matchAllFrom fuel' r Input (S lastIndex)
           | Some y =>
               let e := endIndex y in
               toMatchArray Input lastIndex y ::
               matchAllFrom fuel' r Input (if e =? lastIndex then S e else e)
           end
  end.

(** [[...Input.matchAll(r)]] *)
Definition matchAll (r : Regex) (Input : jsstring) : list MatchArray :=
  matchAllFrom (length Input + 2) r Input 0.

(** ** The script *)

Definition isDigit (c : char16) : bool :=
  (48 <=? c)%N && (c <=? 57)%N.

(** The class [[a-zA-Z0-9.]]. *)
Definition isPreRelease (c : char16) : bool :=
  ((97 <=? c)%N && (c <=? 122)%N) ||
  ((65 <=? c)%N && (c <=? 90)%N) ||
  ((48 <=? c)%N && (c <=? 57)%N) ||
  (c =? 46)%N.

Definition HASH : char16 := 35%N.
Definition SPACE : char16 := 32%N.
Definition LBRACKET : char16 := 91%N.
Definition RBRACKET : char16 := 93%N.
Definition DOT : char16 := 46%N.
Definition HYPHEN : char16 := 45%N.

(** [\d+] *)
Definition digits : Regex := RPlus (RClass isDigit).

(** [(?:-[a-zA-Z0-9.]+)?] *)
Definition preRelease : Regex :=
  ROpt (RSeq (RChar HYPHEN) (RPlus (RClass isPreRelease))).

(** [\d+\.\d+\.\d+(?:-[a-zA-Z0-9.]+)?] *)
Definition versionCore : Regex :=
  RSeq digits (RSeq (RChar DOT)
  (RSeq digits (RSeq (RChar DOT)
  (RSeq digits preRelease)))).

(** [/^## \[?(\d+\.\d+\.\d+(?:-[a-zA-Z0-9.]+)?)\]?/gm] *)
Definition versionHeaderRegex : Regex :=
  RSeq RBol
  (RSeq (RChar HASH) (RSeq (RChar HASH) (RSeq (RChar SPACE)
  (RSeq (ROpt (RChar LBRACKET))
  (RSeq (RGroup versionCore)
        (ROpt (RChar RBRACKET))))))).

Record LatestRelease : Type := mkRelease {
  packageName : jsstring;
  version : jsstring;
  content : jsstring
}.

(** [firstMatch[1]]; the type of the script says it is a string. *)
Definition firstGroup (m : MatchArray) : jsstring :=
  match group1 m with
  | Some v => v
  | None => []
  end.

(** The body of [extractLatestRelease] after the file has been read. *)
Definition extractFromContent (content : jsstring) (packageName : jsstring)
  : option LatestRelease :=
  let matches := matchAll versionHeaderRegex content in
  match matches with
  | [] => None
  | firstMatch :: others =>
      let version := firstGroup firstMatch in
      let startIndex := index firstMatch in
      let endIndex :=
        match others with
        | second :: _ => index second
        | [] => length content
        end in
      let section := trim (slice content startIndex endIndex) in
      if length section <? 50 then None
      else Some (mkRelease packageName version section)
  end.

(** *** The host

    What the script asks of Node: [process.argv], [process.cwd()],
    [fs.existsSync], [fs.readFileSync(path, 'utf-8')] ([None] when it
    throws), [path.join] and [path.dirname]. *)
Record Host : Type := mkHost {
  argv : list jsstring;
  cwd : jsstring;
  existsSync : jsstring -> bool;
  readFileSync : jsstring -> option jsstring;
  join : list jsstring -> jsstring;
  dirname : jsstring -> jsstring
}.

(** The only exception of the part modelled: a file that cannot be
    read. *)
Inductive Error : Type :=
| ReadError (path : jsstring).

(** How a call ends: it returns, it throws, or it calls
    [process.exit]. *)
Inductive Outcome (A : Type) : Type :=
| Return (a : A)
| Throw (e : Error)
| Exit (status : nat).

Arguments Return {A} a.
Arguments Throw {A} e.
Arguments Exit {A} status.

(** A line written by [console.log], or an error written by
    [console.error]. *)
Inductive Output : Type :=
| Log (line : jsstring)
| ErrorLog (e : Error).

(** [extractLatestRelease(changelogPath, packageName)] *)
Definition extractLatestRelease (h : Host) (changelogPath : jsstring)
    (packageName : jsstring) : Outcome (option LatestRelease) :=
  match readFileSync h changelogPath with
  | None => Throw (ReadError changelogPath)
  | Some content => Return (extractFromContent content packageName)
  end.

Definition MAIN_DOC_PACKAGES : list jsstring :=
  [js "instantsearch.js"; js "react-instantsearch"; js "vue-instantsearch"].

Fixpoint jsstring_eqb (a b : jsstring) : bool :=
  match a, b with
  | [], [] => true
  | x :: a', y :: b' => (x =? y)%N && jsstring_eqb a' b'
  | _, _ => false
  end.

(** [args.includes(x)] *)
Definition includes (args : list jsstring) (x : jsstring) : bool :=
  existsb (jsstring_eqb x) args.

(** [args.indexOf(x)], [None] for -1. *)
Fixpoint indexOf (args : list jsstring) (x : jsstring) : option nat :=
  match args with
  | [] => None
  | a :: args' =>
      if jsstring_eqb a x then Some 0
      else match indexOf args' x with
           | Some i => Some (S i)
           | None => None
           end
  end.

(** A string is truthy when it is not empty; [None] is [undefined]. *)
Definition truthy (v : option jsstring) : option jsstring :=
  match v with
  | Some (_ :: _) => v
  | _ => None
  end.

(** The loop of [getRepoRoot], from [dir]; [None] when it is still
    running after [fuel] iterations. *)
Fixpoint getRepoRootFrom (h : Host) (fuel : nat) (dir : jsstring)
  : option jsstring :=
  match fuel with
  | O => None
  | S fuel' =>
      if jsstring_eqb dir (js "/") then Some (cwd h)
      else if existsSync h (join h [dir; js "packages"; js "instantsearch.js"])
      then Some dir
      else getRepoRootFrom h fuel' (dirname h dir)
  end.

Definition getRepoRoot (h : Host) (fuel : nat) : option jsstring :=
  getRepoRootFrom h fuel (cwd h).

Definition logIf (verbose : bool) (line : jsstring) (console : list Output)
  : list Output :=
  if verbose then console ++ [Log line] else console.

(** The loop of [main] over the packages. *)
Fixpoint scanPackages (h : Host) (verbose : bool) (packagesDir : jsstring)
    (packages : list jsstring) (releases : list LatestRelease)
    (console : list Output) : list Output * Outcome (list LatestRelease) :=
  match packages with
  | [] => (console, Return releases)
  | packageName :: packages' =>
      let changelogPath := join h [packagesDir; packageName; js "CHANGELOG.md"] in
      if negb (existsSync h changelogPath) then
        scanPackages h verbose packagesDir packages' releases
          (logIf verbose
             (js "  Skipping " ++ packageName ++ js " (no CHANGELOG.md)")
             console)
      else
        match extractLatestRelease h changelogPath packageName with
        | Return (Some release) =>
            scanPackages h verbose packagesDir packages'
              (releases ++ [release])
              (logIf verbose
                 (js "  Found: " ++ packageName ++ js "@" ++ version release)
                 console)
        | Return None =>
            scanPackages h verbose packagesDir packages' releases
              (logIf verbose
                 (js "  Skipping " ++ packageName ++
                  js " (no significant changes)")
                 console)
        | Throw e => (console, Throw e)
        | Exit status => (console, Exit status)
        end
  end.

Definition usage : jsstring :=
  LF :: js "InstantSearch Documentation Automation" ++ LF ::
  LF :: js "Usage: npx tsx src/index.ts <command> [options]" ++ LF ::
  LF :: js "Commands:" ++ LF ::
  js "  generate-prompt      Generate a prompt for Claude Code CLI" ++ LF ::
  LF :: js "Options:" ++ LF ::
  js "  --verbose            Show detailed output" ++ LF ::
  js "  --output <path>      Output file path for the prompt" ++ LF ::
  LF :: js "Examples:" ++ LF ::
  js "  # Generate prompt and print to stdout" ++ LF ::
  js "  npx tsx src/index.ts generate-prompt" ++ LF ::
  LF :: js "  # Generate prompt and save to file" ++ LF ::
  js "  npx tsx src/index.ts generate-prompt --output ./prompt.txt" ++ [LF].

Section Main.

(** What [main] does once it has at least one release: it reports
    them, builds the prompt and prints or writes it. *)
Variable report :
  list LatestRelease -> option jsstring -> list Output ->
  list Output * Outcome unit.

(** [main()]; [None] when [getRepoRoot] is still running after [fuel]
    iterations. *)
Definition main (h : Host) (fuel : nat)
  : option (list Output * Outcome unit) :=
  let args := skipn 2 (argv h) in
  let command :=
    match truthy (nth_error args 0) with
    | Some a => a
    | None => js "help"
    end in
  let verbose := includes args (js "--verbose") in
  let outputPath :=
    match indexOf args (js "--output") with
    | Some outputIndex => truthy (nth_error args (outputIndex + 1))
    | None => None
    end in
  match getRepoRoot h fuel with
  | None => None
  | Some repoRoot =>
      let packagesDir := join h [repoRoot; js "packages"] in
      let console :=
        if verbose
        then [Log (js "Repo root: " ++ repoRoot);
              Log (js "Packages dir: " ++ packagesDir)]
        else [] in
      if jsstring_eqb command (js "generate-prompt") then
        match scanPackages h verbose packagesDir MAIN_DOC_PACKAGES []
                console with
        | (console', Return releases) =>
            if length releases =? 0 then
              Some (console' ++
                    [Log (js "No packages with documentation needs detected")],
                    Exit 0)
            else Some (report releases outputPath console')
        | (console', Throw e) => Some (console', Throw e)
        | (console', Exit status) => Some (console', Exit status)
        end
      else Some (console ++ [Log usage], Return tt)
  end.

(** The script: [main().catch(...)] reports what [main] throws and
    exits with status 1. *)
Definition script (h : Host) (fuel : nat)
  : option (list Output * Outcome unit) :=
  match main h fuel with
  | Some (console, Throw e) => Some (console ++ [ErrorLog e], Exit 1)
  | r => r
  end.

End Main.

(** ** Definitions used to state and prove the properties *)

(** The offsets of the version headings of a text: where a line starts
    with what the pattern recognises. *)
Definition isHeadingAt (s : jsstring) (i : nat) : bool :=
  match matchAt versionHeaderRegex s i with
  | Some _ => true
  | None => false
  end.

Definition headingOffsets (s : jsstring) : list nat :=
  filter (isHeadingAt s) (seq 0 (S (length s))).

(** MAJOR.MINOR.PATCH, then possibly a hyphen and a tag of letters,
    digits and dots. *)
Definition isNumber (n : jsstring) : Prop :=
  n <> [] /\ forallb isDigit n = true.

Definition isTag (t : jsstring) : Prop :=
  t <> [] /\ forallb isPreRelease t = true.

Definition isVersion (v : jsstring) : Prop :=
  exists major minor patch suffix,
    v = major ++ DOT :: minor ++ DOT :: patch ++ suffix /\
    isNumber major /\ isNumber minor /\ isNumber patch /\
    (suffix = [] \/ exists tag, suffix = HYPHEN :: tag /\ isTag tag).



(** The classes of a pattern accept [ch]: only such code units are ever
    consumed. *)
Fixpoint consumable (r : Regex) (ch : char16) : bool :=
  match r with
  | RClass p => p ch
  | RBol => false
  | RSeq r1 r2 => consumable r1 ch || consumable r2 ch
  | ROpt r1 | RPlus r1 | RGroup r1 => consumable r1 ch
  end.

(** A matcher that succeeds has called its continuation at a state
    further in the input, and every code unit it went over is accepted
    by one of its classes. *)
Definition advances (Input : jsstring) (r : Regex) (m : Matcher) : Prop :=
  forall x c z, m x c = Some z ->
  exists y, c y = Some z /\ endIndex x <= endIndex y /\
    forall j, endIndex x <= j < endIndex y ->
      exists ch, nth_error Input j = Some ch /\ consumable r ch = true.

(** Two continuations that agree on the states a matcher can reach
    from [x]. *)
Definition agree (Input : jsstring) (x : MatchState)
    (c c' : Continuation) : Prop :=
  forall y, endIndex x <= endIndex y ->
    endIndex y = endIndex x \/ endIndex y <= length Input ->
    c y = c' y.

Definition extensional (Input : jsstring) (m : Matcher) : Prop :=
  forall x c c', agree Input x c c' -> m x c = m x c'.

(** Length of the longest prefix of [l] whose code units satisfy [p]. *)
Fixpoint span (p : char16 -> bool) (l : jsstring) : nat :=
  match l with
  | ch :: l' => if p ch then S (span p l') else O
  | [] => O
  end.

(** Length of the run of [p] that starts at offset [e] of [s]. *)
Definition run (p : char16 -> bool) (s : jsstring) (e : nat) : nat :=
  span p (skipn e s).

Definition charIs (s : jsstring) (e : nat) (c : char16) : bool :=
  match nth_error s e with
  | Some ch => (c =? ch)%N
  | None => false
  end.

(** The choices a greedy quantifier over a class leaves to its
    continuation: the longest run first, then each shorter one. *)
Fixpoint tryDown (c : Continuation) (cap : option (nat * nat))
    (e n : nat) : MatchResult :=
  match n with
  | O => c (mkState e cap)
  | S n' =>
      match tryDown c cap (S e) n' with
      | Some z => Some z
      | None => c (mkState e cap)
      end
  end.

(** Where the version that starts at offset [a] ends: three runs of
    digits separated by dots, then a hyphen and a run of the
    pre-release class when there is one. Computed in one pass, without
    backtracking. *)
Definition versionAt (s : jsstring) (a : nat) : option nat :=
  let n1 := run isDigit s a in
  if (0 <? n1) && charIs s (a + n1) DOT then
    let b := a + n1 + 1 in
    let n2 := run isDigit s b in
    if (0 <? n2) && charIs s (b + n2) DOT then
      let c := b + n2 + 1 in
      let n3 := run isDigit s c in
      if 0 <? n3 then
        let d := c + n3 in
        let k := run isPreRelease s (d + 1) in
        Some (if charIs s d HYPHEN && (0 <? k) then d + 1 + k else d)
      else None
    else None
  else None.

(** What the pattern of the script recognises at offset [i], in one
    pass. *)
Definition headerAt (s : jsstring) (i : nat) : MatchResult :=
  if isLineStart s i && charIs s i HASH && charIs s (i + 1) HASH
     && charIs s (i + 2) SPACE
  then
    let a := if charIs s (i + 3) LBRACKET then i + 4 else i + 3 in
    match versionAt s a with
    | Some e =>
        Some (mkState (if charIs s e RBRACKET then e + 1 else e)
                      (Some (a, e)))
    | None => None
    end
  else None.

(** The end of the first section of a text, and the first section
    trimmed, in terms of the headings. *)
Definition sectionEnd (s : jsstring) : nat :=
  match headingOffsets s with
  | _ :: h2 :: _ => h2
  | _ => length s
  end.

Definition firstSection (s : jsstring) : jsstring :=
  match headingOffsets s with
  | h1 :: _ => trim (slice s h1 (sectionEnd s))
  | [] => []
  end.

(** What may follow a version in a heading for the version to end
    there: nothing, or a code unit that is neither in the pre-release
    class nor a hyphen. *)
Definition boundary (tail : jsstring) : bool :=
  match tail with
  | [] => true
  | c :: _ => negb (isPreRelease c) && negb (c =? HYPHEN)%N
  end.

(** The changelog that [main] reads for a package. *)
Definition changelogOf (h : Host) (repoRoot packageName : jsstring)
  : jsstring :=
  join h [join h [repoRoot; js "packages"]; packageName; js "CHANGELOG.md"].

(** *** Sample inputs *)

(** The example of the specification. *)
Definition demo : jsstring :=
  js "## [4.87.0]" ++ LF :: js "- Added widget X" ++ LF ::
  js "- Fixed bug Y in component Z" ++ LF :: js "## [4.86.0]" ++ LF ::
  js "- Older entry" ++ [LF].

(** A version bump with no change worth a section. *)
Definition bumpOnly : jsstring :=
  js "## [4.87.1]" ++ LF :: js "- bump" ++ [LF].

Definition demoPath : jsstring :=
  js "/repo/packages/instantsearch.js/CHANGELOG.md".

Fixpoint joinPosix (parts : list jsstring) : jsstring :=
  match parts with
  | [] => []
  | [part] => part
  | part :: parts' => part ++ js "/" ++ joinPosix parts'
  end.

(** A checkout at [/repo] where only [instantsearch.js] has a
    changelog, with the given text; [None] for a changelog that cannot
    be read. *)
Definition demoHost (text : option jsstring) : Host :=
  mkHost [js "node"; js "src/index.ts"; js "generate-prompt"]
    (js "/repo")
    (fun p => jsstring_eqb p (js "/repo/packages/instantsearch.js")
              || jsstring_eqb p demoPath)
    (fun p => if jsstring_eqb p demoPath then text else None)
    joinPosix
    (fun _ => js "/").

(** The notes of the newest release in [demo], and a text made of a
    heading line and these notes. *)
Definition notes : jsstring :=
  js "- Added widget X" ++ LF :: js "- Fixed bug Y in component Z" ++ [LF].

Definition underHeading (heading : jsstring) : jsstring :=
  heading ++ LF :: notes.

(** *** Definitions for the properties of the rest of the script *)

(** The version that the pattern captures at offset [i]. *)
Definition capturedAt (s : jsstring) (i : nat) : jsstring :=
  match matchAt versionHeaderRegex s i with
  | Some y => firstGroup (toMatchArray s i y)
  | None => []
  end.

(** The directory that [getRepoRoot] looks at after [k] calls of
    [path.dirname], and what it looks for there. *)
Definition ancestor (h : Host) (k : nat) : jsstring :=
  Nat.iter k (dirname h) (cwd h).

Definition hasMarker (h : Host) (dir : jsstring) : bool :=
  existsSync h (join h [dir; js "packages"; js "instantsearch.js"]).

(** The release of one package, when its changelog exists, can be read
    and has one; and the releases of a list of packages. *)
Definition releaseOf (h : Host) (packagesDir packageName : jsstring)
  : option LatestRelease :=
  let changelogPath := join h [packagesDir; packageName; js "CHANGELOG.md"] in
  if existsSync h changelogPath then
    match readFileSync h changelogPath with
    | Some text => extractFromContent text packageName
    | None => None
    end
  else None.

Definition releasesOf (h : Host) (packagesDir : jsstring)
    (packages : list jsstring) : list LatestRelease :=
  flat_map (fun packageName =>
              match releaseOf h packagesDir packageName with
              | Some release => [release]
              | None => []
              end) packages.

(** Every changelog that exists can be read. *)
Definition readable (h : Host) (packagesDir : jsstring)
    (packages : list jsstring) : Prop :=
  forall packageName, In packageName packages ->
    existsSync h (join h [packagesDir; packageName; js "CHANGELOG.md"]) = true ->
    readFileSync h (join h [packagesDir; packageName; js "CHANGELOG.md"])
    <> None.

(** The arguments of the command line as [main] reads them. *)
Definition commandOf (h : Host) : jsstring :=
  match truthy (nth_error (skipn 2 (argv h)) 0) with
  | Some a => a
  | None => js "help"
  end.

Definition verboseOf (h : Host) : bool :=
  includes (skipn 2 (argv h)) (js "--verbose").

Definition outputPathOf (h : Host) : option jsstring :=
  match indexOf (skipn 2 (argv h)) (js "--output") with
  | Some outputIndex => truthy (nth_error (skipn 2 (argv h)) (outputIndex + 1))
  | None => None
  end.

(** A text that ends with a line terminator. *)
Definition endsLine (s : jsstring) : Prop :=
  exists s0 c, s = s0 ++ [c] /\ isLineTerminator c = true.

(** A match moved [n] code units further. *)
Definition shiftState (n : nat) (y : MatchState) : MatchState :=
  mkState (n + endIndex y)
    (match captures y with
     | Some (a, b) => Some (n + a, n + b)
     | None => None
     end).

(** *** The body of [extractLatestRelease], statement by statement

    The statements of [extractFromContent] with what can throw in
    them: [matchAll] throws a TypeError for a pattern without the [g]
    flag, and reading an element or a property of [undefined] throws a
    TypeError. An element of an array beyond its length and a group
    that took no part in the match are [undefined]. *)

Inductive Completion (A : Type) : Type :=
| Normal (a : A)
| TypeError.

Arguments Normal {A} a.
Arguments TypeError {A}.

(** A pattern with its [g] flag; the [m] flag is in [RBol]. *)
Record RegExp : Type := mkRegExp {
  pattern : Regex;
  global : bool
}.

(** [/^## .../gm] *)
Definition versionHeaderRegExp : RegExp :=
  mkRegExp versionHeaderRegex true.

(** [[...content.matchAll(re)]] *)
Definition matchAllOf (re : RegExp) (text : jsstring)
  : Completion (list MatchArray) :=
  if global re then Normal (matchAll (pattern re) text) else TypeError.

(** [obj.field] and [obj[i]], for [obj] an object or [undefined]. *)
Definition getOf {A B : Type} (obj : option A) (get : A -> B)
  : Completion B :=
  match obj with
  | Some o => Normal (get o)
  | None => TypeError
  end.

(** The object that is returned; its version is what [firstMatch[1]]
    is, a string or [undefined]. *)
Record ReleaseObject : Type := mkObject {
  objectPackageName : jsstring;
  objectVersion : option jsstring;
  objectContent : jsstring
}.

Definition extractStatements (text : jsstring) (packageName : jsstring)
  : Completion (option ReleaseObject) :=
  match matchAllOf versionHeaderRegExp text with
  | TypeError => TypeError
  | Normal matches =>
      if length matches =? 0 then Normal None
      else
        let firstMatch := nth_error matches 0 in
        match getOf firstMatch group1 with
        | TypeError => TypeError
        | Normal version =>
            match getOf firstMatch index with
            | TypeError => TypeError
            | Normal startIndex =>
                match (if 1 <? length matches
                       then getOf (nth_error matches 1) index
                       else Normal (length text)) with
                | TypeError => TypeError
                | Normal endIndex =>
                    let section := trim (slice text startIndex endIndex) in
                    if length section <? 50 then Normal None
                    else Normal (Some (mkObject packageName version section))
                end
            end
        end
  end.

(** The object for a release. *)
Definition objectOf (r : LatestRelease) : ReleaseObject :=
  mkObject (packageName r) (Some (version r)) (content r).

(** [path.dirname] on an absolute path without a slash at its end:
    the path without its last part, ["/"] for a path with one part. *)
Fixpoint dropPart (reversed : jsstring) : jsstring :=
  match reversed with
  | [] => []
  | c :: reversed' => if (c =? 47)%N then reversed' else dropPart reversed'
  end.

Definition dirnamePosix (p : jsstring) : jsstring :=
  match dropPart (rev p) with
  | [] => js "/"
  | reversed => rev reversed
  end.

(** A checkout at [/repo], with or without the marker, and a working
    directory two levels below. *)
Definition walkHost (marked : bool) : Host :=
  mkHost [js "node"; js "src/index.ts"; js "generate-prompt"]
    (js "/repo/scripts/docs-automation")
    (fun p => marked && jsstring_eqb p (js "/repo/packages/instantsearch.js"))
    (fun _ => None)
    joinPosix
    dirnamePosix.

(** A host on which [path.dirname] never reaches the root, as for a
    drive letter. *)
Definition stuckHost : Host :=
  mkHost [js "node"; js "src/index.ts"; js "generate-prompt"]
    (js "C:\")
    (fun _ => false)
    (fun _ => None)
    joinPosix
    (fun _ => js "C:\").

(** ** The matcher *)

Section Matcher.

Variable Input : jsstring.

Lemma resetCaptures_endIndex (r : Regex) (x : MatchState) :
  endIndex (resetCaptures r x) = endIndex x.
Proof. unfold resetCaptures. destruct (hasGroup r); reflexivity. Qed.

Lemma RepeatStar_advances (r : Regex) (m : Matcher)
    (reset : MatchState -> MatchState) :
  advances Input r m -> (forall x, endIndex (reset x) = endIndex x) ->
  forall fuel c x z, RepeatStar m reset c fuel x = Some z ->
  exists y, c y = Some z /\ endIndex x <= endIndex y /\
    forall j, endIndex x <= j < endIndex y ->
      exists ch, nth_error Input j = Some ch /\ consumable r ch = true.
Proof.
  intros Hm Hreset fuel c.
  induction fuel as [|fuel IH]; intros x z H; simpl in H.
  - exists x. split; [assumption|]. split; [lia|]. intros j Hj. lia.
  - destruct (m (reset x) _) as [w|] eqn:E.
    + injection H as ->.
      apply Hm in E. destruct E as (y & Hy & Hle & Hcons).
      rewrite Hreset in Hle, Hcons.
      destruct (endIndex y =? endIndex x); [discriminate|].
      apply IH in Hy. destruct Hy as (y' & Hy' & Hle' & Hcons').
      exists y'. split; [assumption|]. split; [lia|]. intros j Hj.
      destruct (Nat.lt_ge_cases j (endIndex y)).
      * apply Hcons. lia.
      * apply Hcons'. lia.
    + exists x. split; [assumption|]. split; [lia|]. intros j Hj. lia.
Qed.

Lemma compile_advances (r : Regex) : advances Input r (compile r Input).
Proof.
  induction r as [p| |r1 IH1 r2 IH2|r1 IH1|r1 IH1|r1 IH1];
    intros x c z H; simpl in H.
  - destruct (nth_error Input (endIndex x)) as [ch|] eqn:E; [|discriminate].
    destruct (p ch) eqn:Ep; [|discriminate].
    eexists. split; [exact H|]. simpl. split; [lia|]. intros j Hj.
    assert (j = endIndex x) as -> by lia. exists ch. split; assumption.
  - destruct (isLineStart Input (endIndex x)); [|discriminate].
    exists x. split; [assumption|]. split; [lia|]. intros j Hj. lia.
  - apply IH1 in H. destruct H as (y & Hy & Hle & Hcons).
    apply IH2 in Hy. destruct Hy as (y' & Hy' & Hle' & Hcons').
    exists y'. split; [assumption|]. split; [lia|]. intros j Hj. simpl.
    destruct (Nat.lt_ge_cases j (endIndex y)).
    + destruct (Hcons j) as (ch & ? & Hch); [lia|].
      exists ch. rewrite Hch. split; [assumption|reflexivity].
    + destruct (Hcons' j) as (ch & ? & Hch); [lia|].
      exists ch. rewrite Hch. split; [assumption|apply orb_true_r].
  - destruct (compile r1 Input _ _) as [w|] eqn:E.
    + injection H as ->. apply IH1 in E.
      destruct E as (y & Hy & Hle & Hcons).
      rewrite resetCaptures_endIndex in Hle, Hcons.
      destruct (endIndex y =? endIndex x); [discriminate|].
      exists y. split; [assumption|]. split; assumption.
    + exists x. split; [assumption|]. split; [lia|]. intros j Hj. lia.
  - apply IH1 in H. destruct H as (y & Hy & Hle & Hcons).
    rewrite resetCaptures_endIndex in Hle, Hcons.
    apply (RepeatStar_advances r1 _ _ IH1 (resetCaptures_endIndex r1)) in Hy.
    destruct Hy as (y' & Hy' & Hle' & Hcons').
    exists y'. split; [assumption|]. split; [lia|]. intros j Hj. simpl.
    destruct (Nat.lt_ge_cases j (endIndex y)).
    + apply Hcons. lia.
    + apply Hcons'. lia.
  - apply IH1 in H. destruct H as (y & Hy & Hle & Hcons).
    eexists. split; [exact Hy|]. simpl. split; assumption.
Qed.

Lemma agree_later (x y : MatchState) (c c' : Continuation) :
  agree Input x c c' -> endIndex x <= endIndex y ->
  endIndex y = endIndex x \/ endIndex y <= length Input ->
  agree Input y c c'.
Proof.
  intros H Hle Hb z Hz Hbz. apply H; lia.
Qed.

Lemma RepeatStar_ext (m : Matcher) (reset : MatchState -> MatchState) :
  extensional Input m -> (forall x, endIndex (reset x) = endIndex x) ->
  forall fuel x c c', agree Input x c c' ->
  RepeatStar m reset c fuel x = RepeatStar m reset c' fuel x.
Proof.
  intros Hm Hreset fuel.
  induction fuel as [|fuel IH]; intros x c c' H; simpl.
  - apply H; lia.
  - rewrite (H x) by lia.
    erewrite Hm; [reflexivity|].
    intros y Hy Hb. rewrite Hreset in Hy, Hb.
    destruct (endIndex y =? endIndex x); [reflexivity|].
    apply IH. eapply agree_later; eassumption.
Qed.

Lemma compile_ext (r : Regex) : extensional Input (compile r Input).
Proof.
  induction r as [p| |r1 IH1 r2 IH2|r1 IH1|r1 IH1|r1 IH1];
    intros x c c' H; simpl.
  - destruct (nth_error Input (endIndex x)) as [ch|] eqn:E; [|reflexivity].
    destruct (p ch); [|reflexivity].
    assert (endIndex x < length Input)
      by (apply nth_error_Some; rewrite E; discriminate).
    apply H; simpl; lia.
  - rewrite (H x) by lia. reflexivity.
  - apply IH1. intros y Hy Hb. apply IH2. eapply agree_later; eassumption.
  - rewrite (H x) by lia.
    erewrite IH1; [reflexivity|].
    intros y Hy Hb. rewrite resetCaptures_endIndex in Hy, Hb.
    destruct (endIndex y =? endIndex x); [reflexivity|].
    apply H; assumption.
  - apply IH1. intros y Hy Hb. rewrite resetCaptures_endIndex in Hy, Hb.
    apply RepeatStar_ext;
      [exact IH1|apply resetCaptures_endIndex|].
    eapply agree_later; eassumption.
  - apply IH1. intros y Hy Hb. apply H; simpl; assumption.
Qed.

(** The fuel that [compile] gives to [RepeatStar] is enough: with any
    larger amount the result is the same. *)
Lemma RepeatStar_fuel (r : Regex) (c : Continuation) :
  forall f1 f2 x,
  length Input - endIndex x <= f1 -> length Input - endIndex x <= f2 ->
  RepeatStar (compile r Input) (resetCaptures r) c f1 x =
  RepeatStar (compile r Input) (resetCaptures r) c f2 x.
Proof.
  assert (Hstop : forall x (d : Continuation),
    length Input <= endIndex x ->
    (forall y, endIndex y = endIndex x -> d y = None) ->
    compile r Input (resetCaptures r x) d = None).
  { intros x d Hlen Hd.
    destruct (compile r Input (resetCaptures r x) d) as [z|] eqn:E;
      [|reflexivity].
    apply compile_advances in E. destruct E as (y & Hy & Hle & Hcons).
    rewrite resetCaptures_endIndex in Hle, Hcons.
    destruct (Nat.eq_dec (endIndex y) (endIndex x)) as [Heq|Hne].
    - rewrite (Hd y Heq) in Hy. discriminate.
    - destruct (Hcons (endIndex x)) as (ch & Hch & _); [lia|].
      assert (endIndex x < length Input)
        by (apply nth_error_Some; rewrite Hch; discriminate).
      lia. }
  induction f1 as [|f1 IH]; intros [|f2] x H1 H2; simpl;
    try reflexivity.
  - rewrite Hstop; [reflexivity|lia|].
    intros y ->. rewrite Nat.eqb_refl. reflexivity.
  - rewrite Hstop; [reflexivity|lia|].
    intros y ->. rewrite Nat.eqb_refl. reflexivity.
  - erewrite compile_ext; [reflexivity|].
    intros y Hy Hb. rewrite resetCaptures_endIndex in Hy, Hb.
    destruct (endIndex y =? endIndex x) eqn:E; [reflexivity|].
    apply Nat.eqb_neq in E. apply IH; lia.
Qed.

End Matcher.

(** A match ends at or after the offset where it was tried, within the
    input, and goes over code units of the pattern's classes only. *)
Lemma matchAt_advances (r : Regex) (Input : jsstring) (i : nat)
    (y : MatchState) :
  matchAt r Input i = Some y ->
  i <= endIndex y /\
  forall j, i <= j < endIndex y ->
    exists ch, nth_error Input j = Some ch /\ consumable r ch = true.
Proof.
  intros H. apply compile_advances in H.
  destruct H as (y' & Hy' & Hle & Hcons). injection Hy' as ->.
  split; assumption.
Qed.

Lemma matchAt_end (r : Regex) (Input : jsstring) (i : nat) (y : MatchState) :
  matchAt r Input i = Some y -> i <= length Input ->
  endIndex y <= length Input.
Proof.
  intros H Hi. apply matchAt_advances in H. destruct H as (Hle & Hcons).
  destruct (Nat.eq_dec (endIndex y) i) as [->|Hne]; [assumption|].
  destruct (Hcons (endIndex y - 1)) as (ch & Hch & _); [lia|].
  assert (endIndex y - 1 < length Input)
    by (apply nth_error_Some; rewrite Hch; discriminate).
  lia.
Qed.

(** The fuel of [matchAll] is enough. *)
Lemma matchAllFrom_fuel (r : Regex) (Input : jsstring) :
  forall f1 f2 k,
  length Input + 1 - k <= f1 -> length Input + 1 - k <= f2 ->
  matchAllFrom f1 r Input k = matchAllFrom f2 r Input k.
Proof.
  induction f1 as [|f1 IH]; intros [|f2] k H1 H2; simpl; try reflexivity.
  - destruct (length Input <? k) eqn:E; [reflexivity|].
    apply Nat.ltb_ge in E. lia.
  - destruct (length Input <? k) eqn:E; [reflexivity|].
    apply Nat.ltb_ge in E. lia.
  - destruct (length Input <? k) eqn:E; [reflexivity|].
    apply Nat.ltb_ge in E.
    destruct (matchAt r Input k) as [y|] eqn:Ey.
    + f_equal. apply matchAt_advances in Ey. destruct Ey as (Hle & _).
      destruct (Nat.eqb_spec (endIndex y) k); apply IH; lia.
    + apply IH; lia.
Qed.

(** ** The pattern of the script, without backtracking *)

Lemma skipn_nth_error_Some (A : Type) (l : list A) :
  forall e a, nth_error l e = Some a -> skipn e l = a :: skipn (S e) l.
Proof.
  induction l as [|b l IH]; intros [|e] a H; simpl in *; try discriminate.
  - injection H as ->. reflexivity.
  - apply IH, H.
Qed.

Lemma skipn_nth_error_None (A : Type) (l : list A) :
  forall e, nth_error l e = None -> skipn e l = [].
Proof.
  intros e H. apply skipn_all2. apply nth_error_None, H.
Qed.

Section Header.

Variable s : jsstring.

Lemma resetCaptures_nogroup (r : Regex) (x : MatchState) :
  hasGroup r = false -> resetCaptures r x = x.
Proof. unfold resetCaptures. intros ->. reflexivity. Qed.

Lemma run_step (p : char16 -> bool) (e : nat) :
  run p s e =
  match nth_error s e with
  | Some ch => if p ch then S (run p s (S e)) else 0
  | None => 0
  end.
Proof.
  unfold run. destruct (nth_error s e) as [ch|] eqn:E.
  - rewrite (skipn_nth_error_Some _ _ _ _ E). reflexivity.
  - rewrite (skipn_nth_error_None _ _ _ E). reflexivity.
Qed.

(** Every code unit of a run satisfies the predicate. *)
Lemma run_inside (p : char16 -> bool) :
  forall n e j, run p s e = n -> e <= j < e + n ->
  exists ch, nth_error s j = Some ch /\ p ch = true.
Proof.
  induction n as [|n IH]; intros e j H Hj; [lia|].
  rewrite run_step in H.
  destruct (nth_error s e) as [ch|] eqn:E; [|discriminate].
  destruct (p ch) eqn:Ep; [|discriminate].
  injection H as H.
  destruct (Nat.eq_dec j e) as [->|Hne].
  - exists ch. split; assumption.
  - apply (IH (S e)); [assumption|lia].
Qed.

Lemma compile_seq (r1 r2 : Regex) (x : MatchState) (c : Continuation) :
  compile (RSeq r1 r2) s x c =
  compile r1 s x (fun y => compile r2 s y c).
Proof. reflexivity. Qed.

Lemma compile_opt (r : Regex) (x : MatchState) (c : Continuation) :
  hasGroup r = false ->
  compile (ROpt r) s x c =
  match compile r s x
          (fun y => if endIndex y =? endIndex x then None else c y) with
  | Some z => Some z
  | None => c x
  end.
Proof.
  intros H. cbn [compile]. rewrite resetCaptures_nogroup by assumption.
  reflexivity.
Qed.

Lemma compile_bol (x : MatchState) (c : Continuation) :
  compile RBol s x c = if isLineStart s (endIndex x) then c x else None.
Proof. reflexivity. Qed.

Lemma compile_group (r : Regex) (x : MatchState) (c : Continuation) :
  compile (RGroup r) s x c =
  compile r s x
    (fun y => c (mkState (endIndex y) (Some (endIndex x, endIndex y)))).
Proof. reflexivity. Qed.

Lemma compile_char (ch : char16) (e : nat) (cap : option (nat * nat))
    (c : Continuation) :
  compile (RChar ch) s (mkState e cap) c =
  if charIs s e ch then c (mkState (S e) cap) else None.
Proof.
  unfold charIs. simpl. destruct (nth_error s e); reflexivity.
Qed.

Lemma RepeatStar_class (p : char16 -> bool) (c : Continuation)
    (cap : option (nat * nat)) :
  forall fuel e, length s - e <= fuel ->
  RepeatStar (compile (RClass p) s) (resetCaptures (RClass p)) c fuel
    (mkState e cap) = tryDown c cap e (run p s e).
Proof.
  induction fuel as [|fuel IH]; intros e H; rewrite run_step;
    cbn [RepeatStar].
  - assert (nth_error s e = None) as -> by (apply nth_error_None; lia).
    reflexivity.
  - unfold resetCaptures.
    cbn [hasGroup compile endIndex captures].
    destruct (nth_error s e) as [ch|] eqn:E; [|reflexivity].
    destruct (p ch); [|reflexivity].
    assert ((S e =? e) = false) as -> by (apply Nat.eqb_neq; lia).
    rewrite IH by lia. reflexivity.
Qed.

Lemma compile_plus_class (p : char16 -> bool) (c : Continuation)
    (cap : option (nat * nat)) (e : nat) :
  compile (RPlus (RClass p)) s (mkState e cap) c =
  match run p s e with
  | O => None
  | S n => tryDown c cap (S e) n
  end.
Proof.
  rewrite run_step. simpl. unfold resetCaptures. simpl.
  destruct (nth_error s e) as [ch|] eqn:E; [|reflexivity].
  destruct (p ch); [|reflexivity].
  apply RepeatStar_class. lia.
Qed.

(** A continuation that fails at every shorter choice leaves the
    longest run. *)
Lemma tryDown_commit (c : Continuation) (cap : option (nat * nat)) :
  forall n e,
  (forall j, e <= j < e + n -> c (mkState j cap) = None) ->
  tryDown c cap e n = c (mkState (e + n) cap).
Proof.
  induction n as [|n IH]; intros e H; simpl.
  - rewrite Nat.add_0_r. reflexivity.
  - rewrite IH by (intros j Hj; apply H; lia).
    replace (S e + n) with (e + S n) by lia.
    destruct (c (mkState (e + S n) cap)) eqn:E; [reflexivity|].
    apply H. lia.
Qed.

(** So does a continuation that accepts the longest run. *)
Lemma tryDown_greedy (c : Continuation) (cap : option (nat * nat)) :
  forall n e, c (mkState (e + n) cap) <> None ->
  tryDown c cap e n = c (mkState (e + n) cap).
Proof.
  induction n as [|n IH]; intros e H; simpl.
  - rewrite Nat.add_0_r. reflexivity.
  - replace (e + S n) with (S e + n) in * by lia.
    rewrite IH by assumption.
    destruct (c (mkState (S e + n) cap)); [reflexivity|contradiction].
Qed.

Lemma charIs_run_false (p : char16 -> bool) (e j : nat) (ch : char16) :
  p ch = false -> e <= j < e + run p s e -> charIs s j ch = false.
Proof.
  intros Hp Hj.
  destruct (run_inside p _ e j eq_refl Hj) as (ch' & Hch' & Hp').
  unfold charIs. rewrite Hch'. apply N.eqb_neq. intros ->. congruence.
Qed.

(** [\d+\.] takes the whole run of digits. *)
Lemma compile_digits_dot (r : Regex) (a : nat) (cap : option (nat * nat))
    (K : Continuation) :
  compile (RSeq digits (RSeq (RChar DOT) r)) s (mkState a cap) K =
  if (0 <? run isDigit s a) && charIs s (a + run isDigit s a) DOT
  then compile r s (mkState (a + run isDigit s a + 1) cap) K
  else None.
Proof.
  rewrite compile_seq. unfold digits. rewrite compile_plus_class.
  destruct (run isDigit s a) as [|n] eqn:En; [reflexivity|].
  rewrite tryDown_commit.
  - rewrite compile_seq, compile_char. replace (S a + n) with (a + S n) by lia.
    replace (S (a + S n)) with (a + S n + 1) by lia. reflexivity.
  - intros j Hj. rewrite compile_seq, compile_char.
    rewrite (charIs_run_false isDigit a j DOT);
      [reflexivity|reflexivity|lia].
Qed.

(** [(?:-[a-zA-Z0-9.]+)?] in front of a continuation that accepts
    everything takes the hyphen and the whole run, when there is one. *)
Lemma compile_preRelease (d : nat) (cap : option (nat * nat))
    (K : Continuation) :
  (forall y, K y <> None) ->
  compile preRelease s (mkState d cap) K =
  K (mkState (if charIs s d HYPHEN && (0 <? run isPreRelease s (d + 1))
              then d + 1 + run isPreRelease s (d + 1) else d) cap).
Proof.
  intros HK. unfold preRelease.
  rewrite compile_opt by reflexivity. rewrite compile_seq, compile_char.
  cbn [endIndex]. replace (d + 1) with (S d) by lia.
  destruct (charIs s d HYPHEN); [|reflexivity].
  rewrite compile_plus_class.
  destruct (run isPreRelease s (S d)) as [|n] eqn:En; [reflexivity|].
  cbn [andb Nat.ltb Nat.leb].
  rewrite tryDown_greedy; cbn [endIndex].
  - assert ((S (S d) + n =? d) = false) as ->
      by (apply Nat.eqb_neq; lia).
    replace (S (S d) + n) with (S d + S n) by lia.
    destruct (K (mkState (S d + S n) cap)) eqn:E; [reflexivity|].
    destruct (HK _ E).
  - assert ((S (S d) + n =? d) = false) as ->
      by (apply Nat.eqb_neq; lia).
    apply HK.
Qed.

(** The group of the pattern in front of such a continuation. *)
Lemma compile_versionCore (a : nat) (cap : option (nat * nat))
    (K : Continuation) :
  (forall y, K y <> None) ->
  compile versionCore s (mkState a cap) K =
  match versionAt s a with
  | Some e => K (mkState e cap)
  | None => None
  end.
Proof.
  intros HK. unfold versionCore, versionAt.
  rewrite compile_digits_dot.
  destruct (_ && _); [|reflexivity].
  rewrite compile_digits_dot.
  destruct (_ && _); [|reflexivity].
  rewrite compile_seq. unfold digits. rewrite compile_plus_class.
  set (c := a + run isDigit s a + 1 + run isDigit s (a + run isDigit s a + 1) + 1).
  destruct (run isDigit s c) as [|n] eqn:En; [reflexivity|].
  cbn [Nat.ltb Nat.leb].
  replace (c + S n) with (S c + n) by lia.
  rewrite tryDown_greedy; rewrite compile_preRelease by assumption.
  - reflexivity.
  - apply HK.
Qed.

(** The closing bracket is taken when it is there. *)
Lemma compile_closing (e : nat) (cap : option (nat * nat)) :
  compile (ROpt (RChar RBRACKET)) s (mkState e cap) (fun y => Some y) =
  Some (mkState (if charIs s e RBRACKET then e + 1 else e) cap).
Proof.
  rewrite compile_opt by reflexivity. rewrite compile_char.
  destruct (charIs s e RBRACKET); [|reflexivity].
  cbn [endIndex].
  assert ((S e =? e) = false) as -> by (apply Nat.eqb_neq; lia).
  replace (e + 1) with (S e) by lia. reflexivity.
Qed.

(** The backtracking matcher on the pattern of the script computes
    [headerAt]. *)
Theorem matchAt_versionHeaderRegex (i : nat) :
  matchAt versionHeaderRegex s i = headerAt s i.
Proof.
  assert (Hrest : forall a cap,
    compile (RSeq (RGroup versionCore) (ROpt (RChar RBRACKET))) s
      (mkState a cap) (fun y => Some y) =
    match versionAt s a with
    | Some e => Some (mkState (if charIs s e RBRACKET then e + 1 else e)
                              (Some (a, e)))
    | None => None
    end).
  { intros a cap. rewrite compile_seq, compile_group.
    rewrite compile_versionCore.
    - destruct (versionAt s a); [|reflexivity].
      cbn [endIndex]. apply compile_closing.
    - intros y. cbn [endIndex]. rewrite compile_closing. discriminate. }
  unfold matchAt, versionHeaderRegex, headerAt.
  rewrite compile_seq, compile_bol. cbn [endIndex].
  destruct (isLineStart s i); [|reflexivity]. cbn [andb].
  rewrite compile_seq, compile_char.
  destruct (charIs s i HASH); [|reflexivity]. cbn [andb].
  rewrite compile_seq, compile_char. replace (i + 1) with (S i) by lia.
  destruct (charIs s (S i) HASH); [|reflexivity]. cbn [andb].
  rewrite compile_seq, compile_char. replace (i + 2) with (S (S i)) by lia.
  destruct (charIs s (S (S i)) SPACE); [|reflexivity].
  rewrite compile_seq, compile_opt by reflexivity. rewrite compile_char.
  replace (i + 3) with (S (S (S i))) by lia.
  replace (i + 4) with (S (S (S (S i)))) by lia.
  cbn [endIndex].
  destruct (charIs s (S (S (S i))) LBRACKET) eqn:Eb.
  - assert ((S (S (S (S i))) =? S (S (S i))) = false) as ->
      by (apply Nat.eqb_neq; lia).
    rewrite !Hrest.
    destruct (versionAt s (S (S (S (S i))))); [reflexivity|].
    (* the pattern is retried without the bracket, which is no digit *)
    unfold versionAt.
    assert (run isDigit s (S (S (S i))) = 0) as ->; [|reflexivity].
    rewrite run_step. unfold charIs in Eb.
    destruct (nth_error s (S (S (S i)))) as [ch|]; [|reflexivity].
    apply N.eqb_eq in Eb. subst ch. reflexivity.
  - apply Hrest.
Qed.

End Header.

(** What a recognised version is made of. *)
Lemma versionAt_inv (s : jsstring) (a e : nat) :
  versionAt s a = Some e ->
  exists n1 n2 n3,
    0 < n1 /\ run isDigit s a = n1 /\ charIs s (a + n1) DOT = true /\
    0 < n2 /\ run isDigit s (a + n1 + 1) = n2 /\
    charIs s (a + n1 + 1 + n2) DOT = true /\
    0 < n3 /\ run isDigit s (a + n1 + 1 + n2 + 1) = n3 /\
    (e = a + n1 + 1 + n2 + 1 + n3 \/
     charIs s (a + n1 + 1 + n2 + 1 + n3) HYPHEN = true /\
     0 < run isPreRelease s (a + n1 + 1 + n2 + 1 + n3 + 1) /\
     e = a + n1 + 1 + n2 + 1 + n3 + 1 +
         run isPreRelease s (a + n1 + 1 + n2 + 1 + n3 + 1)).
Proof.
  unfold versionAt. intros H.
  set (n1 := run isDigit s a) in *.
  destruct (Nat.ltb_spec 0 n1) as [H1|]; [|discriminate].
  destruct (charIs s (a + n1) DOT) eqn:D1; [|discriminate].
  cbn [andb] in H.
  set (n2 := run isDigit s (a + n1 + 1)) in *.
  destruct (Nat.ltb_spec 0 n2) as [H2|]; [|discriminate].
  destruct (charIs s (a + n1 + 1 + n2) DOT) eqn:D2; [|discriminate].
  cbn [andb] in H.
  set (n3 := run isDigit s (a + n1 + 1 + n2 + 1)) in *.
  destruct (Nat.ltb_spec 0 n3) as [H3|]; [|discriminate].
  exists n1, n2, n3. repeat (split; [assumption || reflexivity|]).
  destruct (charIs s (a + n1 + 1 + n2 + 1 + n3) HYPHEN); cbn [andb] in H.
  - destruct (Nat.ltb_spec 0
      (run isPreRelease s (a + n1 + 1 + n2 + 1 + n3 + 1))).
    + right. injection H as <-. repeat split; assumption.
    + left. injection H as <-. reflexivity.
  - left. injection H as <-. reflexivity.
Qed.

Lemma versionAt_lt (s : jsstring) (a e : nat) :
  versionAt s a = Some e -> a < e.
Proof.
  intros H. apply versionAt_inv in H.
  destruct H as (n1 & n2 & n3 & ? & _ & _ & ? & _ & _ & ? & _ & [->|(_ & _ & ->)]);
    lia.
Qed.

(** What a recognised heading is made of. *)
Lemma headerAt_inv (s : jsstring) (i : nat) (y : MatchState) :
  headerAt s i = Some y ->
  isLineStart s i = true /\
  charIs s i HASH = true /\ charIs s (i + 1) HASH = true /\
  charIs s (i + 2) SPACE = true /\
  exists a e,
    a = (if charIs s (i + 3) LBRACKET then i + 4 else i + 3) /\
    versionAt s a = Some e /\
    y = mkState (if charIs s e RBRACKET then e + 1 else e) (Some (a, e)).
Proof.
  unfold headerAt. intros H.
  destruct (isLineStart s i); [|discriminate].
  destruct (charIs s i HASH); [|discriminate].
  destruct (charIs s (i + 1) HASH); [|discriminate].
  destruct (charIs s (i + 2) SPACE); [|discriminate].
  cbn [andb] in H. repeat (split; [reflexivity|]).
  destruct (versionAt s _) as [e|] eqn:E; [|discriminate].
  injection H as <-. eexists _, e. repeat split. exact E.
Qed.

(** A match of the pattern is not empty. *)
Lemma match_not_empty (s : jsstring) (i : nat) (y : MatchState) :
  matchAt versionHeaderRegex s i = Some y -> i + 3 < endIndex y.
Proof.
  rewrite matchAt_versionHeaderRegex. intros H.
  apply headerAt_inv in H.
  destruct H as (_ & _ & _ & _ & a & e & Ha & He & ->).
  apply versionAt_lt in He. cbn [endIndex].
  destruct (charIs s (i + 3) LBRACKET), (charIs s e RBRACKET); lia.
Qed.

(** The pattern consumes no line terminator. *)
Lemma consumable_not_terminator (ch : char16) :
  consumable versionHeaderRegex ch = true -> isLineTerminator ch = false.
Proof.
  intros H. destruct (isLineTerminator ch) eqn:E; [|reflexivity].
  unfold isLineTerminator in E.
  repeat (apply orb_true_iff in E; destruct E as [E|E]);
    apply N.eqb_eq in E; subst ch; vm_compute in H; discriminate.
Qed.

(** So no line starts inside a match, and no other match does. *)
Lemma no_match_inside (s : jsstring) (i j : nat) (y : MatchState) :
  matchAt versionHeaderRegex s i = Some y -> i < j < endIndex y ->
  matchAt versionHeaderRegex s j = None.
Proof.
  intros H Hj. apply matchAt_advances in H. destruct H as (_ & Hcons).
  rewrite matchAt_versionHeaderRegex. unfold headerAt.
  destruct j as [|j]; [lia|].
  destruct (Hcons j) as (ch & Hch & Hc); [lia|].
  cbn [isLineStart]. rewrite Hch.
  rewrite (consumable_not_terminator _ Hc). reflexivity.
Qed.

Lemma filter_seq_skip (f : nat -> bool) :
  forall m a n, m <= n ->
  (forall j, a <= j < a + m -> f j = false) ->
  filter f (seq a n) = filter f (seq (a + m) (n - m)).
Proof.
  induction m as [|m IH]; intros a n Hm H.
  - rewrite Nat.add_0_r, Nat.sub_0_r. reflexivity.
  - destruct n as [|n]; [lia|]. cbn [seq filter].
    rewrite H by lia. rewrite (IH (S a) n) by (try lia; intros; apply H; lia).
    f_equal. f_equal; lia.
Qed.

(** The first element that a filter keeps of an interval, and what it
    keeps after it. *)
Lemma filter_seq_cons (f : nat -> bool) :
  forall n a x l, filter f (seq a n) = x :: l ->
  a <= x < a + n /\ f x = true /\
  (forall j, a <= j < x -> f j = false) /\
  l = filter f (seq (S x) (a + n - S x)).
Proof.
  induction n as [|n IH]; intros a x l H; [discriminate|].
  cbn [seq filter] in H. destruct (f a) eqn:E.
  - injection H as <- <-.
    split; [lia|]. split; [assumption|]. split; [intros j Hj; lia|].
    f_equal. f_equal. lia.
  - apply IH in H. destruct H as (Hx & Hf & Hbefore & ->).
    split; [lia|]. split; [assumption|]. split.
    + intros j Hj. destruct (Nat.eq_dec j a) as [->|]; [assumption|].
      apply Hbefore. lia.
    + f_equal. f_equal. lia.
Qed.

(** [matchAll] with the pattern of the script yields one match for each
    heading, in the order of the text. *)
Lemma matchAllFrom_headings (s : jsstring) :
  forall fuel k, length s + 1 - k <= fuel ->
  map index (matchAllFrom fuel versionHeaderRegex s k) =
  filter (isHeadingAt s) (seq k (length s + 1 - k)).
Proof.
  induction fuel as [|fuel IH]; intros k Hk.
  - replace (length s + 1 - k) with 0 by lia. reflexivity.
  - cbn [matchAllFrom].
    destruct (Nat.ltb_spec (length s) k) as [Hlt|Hge].
    + replace (length s + 1 - k) with 0 by lia. reflexivity.
    + replace (length s + 1 - k) with (S (length s - k)) by lia.
      cbn [seq filter]. unfold isHeadingAt at 1.
      destruct (matchAt versionHeaderRegex s k) as [y|] eqn:E.
      * cbn [map toMatchArray index]. f_equal.
        pose proof (match_not_empty _ _ _ E) as Hne.
        pose proof (matchAt_end _ _ _ _ E Hge) as Hend.
        assert ((endIndex y =? k) = false) as ->
          by (apply Nat.eqb_neq; lia).
        rewrite IH by lia.
        assert (Hskip : forall j, S k <= j < S k + (endIndex y - S k) ->
                        isHeadingAt s j = false).
        { intros j Hj. unfold isHeadingAt.
          rewrite (no_match_inside s k j y E) by lia. reflexivity. }
        rewrite (filter_seq_skip _ (endIndex y - S k) (S k)
                   (length s - k) ltac:(lia) Hskip).
        f_equal. f_equal; lia.
      * rewrite IH by lia. f_equal. f_equal. lia.
Qed.

Theorem matchAll_headings (s : jsstring) :
  map index (matchAll versionHeaderRegex s) = headingOffsets s.
Proof.
  unfold matchAll, headingOffsets. rewrite matchAllFrom_headings by lia.
  f_equal. f_equal. lia.
Qed.

(** Each element of [matchAll] is the match at its index. *)
Lemma matchAllFrom_elements (r : Regex) (s : jsstring) :
  forall fuel k m, In m (matchAllFrom fuel r s k) ->
  exists y, matchAt r s (index m) = Some y /\
            m = toMatchArray s (index m) y.
Proof.
  induction fuel as [|fuel IH]; intros k m H; [destruct H|].
  cbn [matchAllFrom] in H.
  destruct (length s <? k); [destruct H|].
  destruct (matchAt r s k) as [y|] eqn:E.
  - destruct H as [<-|H].
    + exists y. split; [exact E|reflexivity].
    + apply IH in H. exact H.
  - apply IH in H. exact H.
Qed.

(** ** [trim] and [slice] *)

Lemma trimStart_split (l : jsstring) :
  exists t, l = t ++ trimStart l /\ forallb isTrimmed t = true.
Proof.
  induction l as [|c l (t & Ht & Hall)]; [exists []; split; reflexivity|].
  cbn [trimStart]. destruct (isTrimmed c) eqn:E.
  - exists (c :: t). cbn [app forallb]. rewrite E, Hall, <- Ht.
    split; reflexivity.
  - exists []. split; reflexivity.
Qed.

(** [trimEnd] removes a suffix of white space. *)
Lemma trimEnd_split (l : jsstring) :
  exists t, l = trimEnd l ++ t /\ forallb isTrimmed t = true.
Proof.
  unfold trimEnd. destruct (trimStart_split (rev l)) as (t & Ht & Hall).
  exists (rev t). split.
  - rewrite <- rev_app_distr, <- Ht, rev_involutive. reflexivity.
  - rewrite forallb_forall in *. intros x Hx. apply Hall.
    apply in_rev. exact Hx.
Qed.

(** A text that starts with no white space is trimmed at its end
    only. *)
Lemma trim_split (c : char16) (l : jsstring) :
  isTrimmed c = false ->
  exists t, c :: l = trim (c :: l) ++ t /\ forallb isTrimmed t = true.
Proof.
  intros H. unfold trim. cbn [trimStart]. rewrite H. apply trimEnd_split.
Qed.

Lemma slice_cons (s : jsstring) (a b : nat) (c : char16) :
  nth_error s a = Some c -> a < b ->
  slice s a b = c :: slice s (S a) b.
Proof.
  intros H Hab. unfold slice.
  assert (a < length s) by (apply nth_error_Some; rewrite H; discriminate).
  rewrite (Nat.min_l a), (Nat.min_l (S a)) by lia.
  rewrite (skipn_nth_error_Some _ _ _ _ H).
  destruct (Nat.min_spec b (length s)) as [[_ ->]|[_ ->]];
    (replace (b - a) with (S (b - S a)) by lia) ||
    (replace (length s - a) with (S (length s - S a)) by lia);
    reflexivity.
Qed.

Lemma charIs_nth_error (s : jsstring) (e : nat) (c : char16) :
  charIs s e c = true <-> nth_error s e = Some c.
Proof.
  unfold charIs. destruct (nth_error s e) as [ch|].
  - rewrite N.eqb_eq. split; [intros ->; reflexivity|congruence].
  - split; discriminate.
Qed.

(** ** [extractLatestRelease] *)

Lemma isHeadingAt_inv (s : jsstring) (i : nat) :
  isHeadingAt s i = true ->
  exists y, headerAt s i = Some y /\ nth_error s i = Some HASH /\
            i + 3 < endIndex y.
Proof.
  unfold isHeadingAt. intros H.
  destruct (matchAt versionHeaderRegex s i) as [y|] eqn:E; [|discriminate].
  exists y. split; [rewrite <- matchAt_versionHeaderRegex; exact E|].
  split; [|exact (match_not_empty _ _ _ E)].
  rewrite matchAt_versionHeaderRegex in E. apply headerAt_inv in E.
  apply charIs_nth_error. apply E.
Qed.

(** What the function computes, in terms of the headings of the
    text: the section runs from the first heading to the second one, or
    to the end of the text. *)
Lemma extractFromContent_headings (s pkg : jsstring) (h1 : nat)
    (rest : list nat) :
  headingOffsets s = h1 :: rest ->
  let e := match rest with h2 :: _ => h2 | [] => length s end in
  let body := trim (slice s h1 e) in
  h1 < e <= length s /\
  (exists t, slice s h1 e = body ++ t /\ forallb isTrimmed t = true) /\
  exists m others,
    matchAll versionHeaderRegex s = m :: others /\ index m = h1 /\
    extractFromContent s pkg =
    if length body <? 50 then None
    else Some (mkRelease pkg (firstGroup m) body).
Proof.
  intros H e body.
  pose proof (matchAll_headings s) as Hall. rewrite H in Hall.
  unfold headingOffsets in H. apply filter_seq_cons in H.
  destruct H as (Hh1 & Hhead & _ & Hrest).
  apply isHeadingAt_inv in Hhead. destruct Hhead as (y & Hy & Hhash & Hne).
  rewrite <- matchAt_versionHeaderRegex in Hy.
  pose proof (matchAt_end _ _ _ _ Hy ltac:(lia)) as Hend.
  assert (He : h1 < e <= length s).
  { subst e. destruct rest as [|h2 rest']; [lia|].
    symmetry in Hrest. apply filter_seq_cons in Hrest. lia. }
  split; [exact He|]. split.
  - subst body. rewrite (slice_cons s h1 e HASH Hhash) by lia.
    apply trim_split. reflexivity.
  - destruct (matchAll versionHeaderRegex s) as [|m others] eqn:Em;
      [discriminate|].
    cbn [map] in Hall. injection Hall as Hm Hothers.
    exists m, others. split; [reflexivity|]. split; [exact Hm|].
    unfold extractFromContent. rewrite Em, Hm.
    assert ((match others with
             | second :: _ => index second
             | [] => length s
             end) = e) as ->; [|reflexivity].
    subst e. destruct others as [|m2 others'], rest as [|h2 rest'];
      try discriminate; [reflexivity|].
    cbn [map] in Hothers. injection Hothers as -> _. reflexivity.
Qed.

(** C2. A text in which no line starts with a version heading yields an
    absent result, returned and not thrown. *)
Theorem no_heading_absent (h : Host) (path pkg s : jsstring) :
  readFileSync h path = Some s ->
  (forall i, isHeadingAt s i = false) ->
  extractLatestRelease h path pkg = Return None.
Proof.
  intros Hread Hnone.
  unfold extractLatestRelease, extractFromContent. rewrite Hread.
  pose proof (matchAll_headings s) as Hall.
  assert (Hempty : headingOffsets s = []).
  { unfold headingOffsets.
    destruct (filter (isHeadingAt s) (seq 0 (S (length s))))
      as [|x l] eqn:E; [reflexivity|].
    apply filter_seq_cons in E. destruct E as (_ & Hx & _).
    rewrite Hnone in Hx. discriminate. }
  rewrite Hempty in Hall.
  destruct (matchAll versionHeaderRegex s); [reflexivity|discriminate].
Qed.

Lemma no_heading_absent_witness :
  extractLatestRelease (demoHost (Some (js "# Changelog"))) demoPath
    (js "instantsearch.js") = Return None.
Proof.
  apply (no_heading_absent _ _ _ (js "# Changelog")); [reflexivity|].
  intros i. unfold isHeadingAt.
  rewrite matchAt_versionHeaderRegex. unfold headerAt.
  do 13 (destruct i as [|i]; [reflexivity|]). reflexivity.
Defined.

(** C3. When the first section, trimmed, has fewer than 50 code units,
    the result is absent although the text has a heading; so it is for
    a text that only bumps the version. *)
Theorem short_section_absent :
  (forall h path pkg s h1 rest,
     readFileSync h path = Some s ->
     headingOffsets s = h1 :: rest ->
     length (firstSection s) < 50 ->
     extractLatestRelease h path pkg = Return None) /\
  headingOffsets bumpOnly = [0] /\
  (forall h path pkg,
     readFileSync h path = Some bumpOnly ->
     extractLatestRelease h path pkg = Return None).
Proof.
  split; [|split].
  - intros h path pkg s h1 rest Hread H Hshort.
    unfold extractLatestRelease. rewrite Hread.
    destruct (extractFromContent_headings s pkg h1 rest H)
      as (_ & _ & m & others & _ & _ & Hx).
    rewrite Hx. unfold firstSection, sectionEnd in Hshort.
    rewrite H in Hshort.
    apply Nat.ltb_lt in Hshort.
    destruct rest; rewrite Hshort; reflexivity.
  - reflexivity.
  - intros h path pkg Hread. unfold extractLatestRelease.
    rewrite Hread. reflexivity.
Qed.

Lemma short_section_absent_witness :
  extractLatestRelease (demoHost (Some bumpOnly)) demoPath
    (js "instantsearch.js") = Return None.
Proof.
  destruct short_section_absent as (Hgen & _ & _).
  apply (Hgen (demoHost (Some bumpOnly)) demoPath (js "instantsearch.js")
           bumpOnly 0 []); [reflexivity|reflexivity|vm_compute; lia].
Defined.

(** ** Headings that are recognised *)

Lemma nth_error_skipn_hd (A : Type) (l : list A) :
  forall e, nth_error l e = hd_error (skipn e l).
Proof.
  induction l as [|a l IH]; intros [|e]; try reflexivity.
  cbn [nth_error skipn]. apply IH.
Qed.

Lemma span_app (p : char16 -> bool) (l r : jsstring) :
  forallb p l = true -> span p (l ++ r) = length l + span p r.
Proof.
  induction l as [|c l IH]; intros H; [reflexivity|].
  cbn [forallb] in H. apply andb_true_iff in H. destruct H as (Hc & Hl).
  cbn [app span length]. rewrite Hc, IH by assumption. reflexivity.
Qed.

Section Suffixes.

Variable s : jsstring.

Lemma skipn_shift (a : nat) (l r : jsstring) :
  skipn a s = l ++ r -> skipn (a + length l) s = r.
Proof.
  intros H. rewrite Nat.add_comm, <- skipn_skipn, H.
  rewrite skipn_app, skipn_all, Nat.sub_diag. reflexivity.
Qed.

Lemma skipn_next (a : nat) (c : char16) (r : jsstring) :
  skipn a s = c :: r -> skipn (a + 1) s = r.
Proof.
  intros H. apply (skipn_shift a [c] r H).
Qed.

Lemma charIs_skipn (e : nat) (c c' : char16) (r : jsstring) :
  skipn e s = c :: r -> charIs s e c' = (c' =? c)%N.
Proof.
  intros H. unfold charIs. rewrite nth_error_skipn_hd, H. reflexivity.
Qed.

Lemma charIs_skipn_nil (e : nat) (c : char16) :
  skipn e s = [] -> charIs s e c = false.
Proof.
  intros H. unfold charIs. rewrite nth_error_skipn_hd, H. reflexivity.
Qed.

Lemma run_skipn (p : char16 -> bool) (a : nat) (l r : jsstring) :
  skipn a s = l ++ r -> forallb p l = true -> span p r = 0 ->
  run p s a = length l.
Proof.
  intros H Hl Hr. unfold run. rewrite H, span_app, Hr by assumption. lia.
Qed.

(** A number followed by a dot is read whole. *)
Lemma number_dot (a : nat) (n r : jsstring) :
  skipn a s = n ++ DOT :: r -> isNumber n ->
  (0 <? run isDigit s a) && charIs s (a + run isDigit s a) DOT = true /\
  skipn (a + run isDigit s a + 1) s = r /\
  run isDigit s a = length n.
Proof.
  intros H (Hne & Hall).
  assert (Hrun : run isDigit s a = length n)
    by (apply (run_skipn isDigit a n (DOT :: r)); auto).
  rewrite Hrun. pose proof (skipn_shift a n _ H) as Hdot.
  rewrite (charIs_skipn _ _ DOT _ Hdot), (skipn_next _ _ _ Hdot).
  destruct n; [contradiction|]. repeat split.
Qed.

(** The version of a heading is read up to its end. *)
Lemma versionAt_skipn (a : nat) (major minor patch suffix tail : jsstring) :
  skipn a s = major ++ DOT :: minor ++ DOT :: patch ++ suffix ++ tail ->
  isNumber major -> isNumber minor -> isNumber patch ->
  suffix = [] \/ (exists tag, suffix = HYPHEN :: tag /\ isTag tag) ->
  boundary tail = true ->
  versionAt s a =
  Some (a + length (major ++ DOT :: minor ++ DOT :: patch ++ suffix)) /\
  skipn (a + length (major ++ DOT :: minor ++ DOT :: patch ++ suffix)) s
  = tail.
Proof.
  intros H Hmajor Hminor Hpatch Hsuffix Htail. unfold versionAt.
  destruct (number_dot a major _ H Hmajor) as (-> & H1 & L1).
  destruct (number_dot _ minor _ H1 Hminor) as (-> & H2 & L2).
  set (c := a + run isDigit s a + 1 +
            run isDigit s (a + run isDigit s a + 1) + 1) in *.
  assert (Htail' : span isPreRelease tail = 0 /\ span isDigit tail = 0 /\
                   forall e, skipn e s = tail -> charIs s e HYPHEN = false).
  { destruct tail as [|t tail'].
    { split; [reflexivity|]. split; [reflexivity|].
      intros e He. apply charIs_skipn_nil. exact He. }
    cbn [boundary] in Htail. apply andb_true_iff in Htail.
    destruct Htail as (Hpre & Hhy). apply negb_true_iff in Hpre, Hhy.
    cbn [span]. rewrite Hpre.
    assert (isDigit t = false) as ->.
    { unfold isPreRelease in Hpre. unfold isDigit.
      apply orb_false_iff in Hpre. destruct Hpre as (Hpre & _).
      apply orb_false_iff in Hpre. apply Hpre. }
    split; [reflexivity|]. split; [reflexivity|]. intros e He.
    rewrite (charIs_skipn _ _ HYPHEN _ He). rewrite N.eqb_sym. exact Hhy. }
  destruct Htail' as (Tpre & Tdig & Thy).
  destruct Hpatch as (Hne & Hall).
  assert (L3 : run isDigit s c = length patch).
  { apply (run_skipn isDigit c patch (suffix ++ tail) H2 Hall).
    destruct Hsuffix as [->|(tag & -> & _)]; [exact Tdig|reflexivity]. }
  rewrite L3. pose proof (skipn_shift c patch _ H2) as H3.
  assert ((0 <? length patch) = true) as ->
    by (destruct patch; [contradiction|reflexivity]).
  assert (Hlen : forall x, length (major ++ DOT :: minor ++ DOT :: patch ++ x)
                 = c - a + length patch + length x).
  { intros x. subst c. rewrite L2, L1, !length_app. cbn [length].
    rewrite !length_app. cbn [length]. rewrite !length_app. lia. }
  rewrite Hlen.
  destruct Hsuffix as [->|(tag & -> & Htne & Htag)].
  - cbn [app length] in *. rewrite (Thy _ H3). cbn [andb].
    replace (a + (c - a + length patch + 0)) with (c + length patch)
      by (subst c; lia).
    split; [reflexivity|exact H3].
  - cbn [app] in H3. rewrite (charIs_skipn _ _ HYPHEN _ H3), N.eqb_refl.
    pose proof (skipn_next _ _ _ H3) as H4.
    rewrite (run_skipn isPreRelease _ tag tail H4 Htag Tpre).
    assert ((0 <? length tag) = true) as ->
      by (destruct tag; [contradiction|reflexivity]).
    cbn [andb length].
    replace (a + (c - a + length patch + S (length tag)))
      with (c + length patch + 1 + length tag) by (subst c; lia).
    split; [reflexivity|]. exact (skipn_shift _ tag tail H4).
Qed.

End Suffixes.

Lemma slice_skipn (s : jsstring) (a : nat) (l r : jsstring) :
  skipn a s = l ++ r -> slice s a (a + length l) = l.
Proof.
  intros H. unfold slice.
  assert (Hlen : length s - a = length l + length r)
    by (rewrite <- length_skipn, H, length_app; reflexivity).
  destruct (Nat.le_gt_cases a (length s)) as [Hle|Hgt].
  - rewrite (Nat.min_l a), (Nat.min_l (a + length l)) by lia.
    rewrite H. replace (a + length l - a) with (length l + 0) by lia.
    rewrite firstn_app_2. cbn [firstn]. apply app_nil_r.
  - assert (length l = 0) by lia.
    destruct l; [|discriminate].
    rewrite Nat.add_0_r, Nat.sub_diag. reflexivity.
Qed.

(** A heading at the start of a line, bracketed or not, with a
    well-formed version, is what the pattern recognises there. *)
Lemma headerAt_skipn (s : jsstring) (i : nat) (ob : bool)
    (v tail : jsstring) :
  isLineStart s i = true ->
  skipn i s = js "## " ++ (if ob then [LBRACKET] else []) ++ v ++ tail ->
  isVersion v -> boundary tail = true ->
  let a := i + 3 + (if ob then 1 else 0) in
  headerAt s i =
  Some (mkState (a + length v + (if charIs tail 0 RBRACKET then 1 else 0))
                (Some (a, a + length v))) /\
  skipn a s = v ++ tail.
Proof.
  intros Hstart H (major & minor & patch & suffix & -> & Hmajor & Hminor
                   & Hpatch & Hsuffix) Htail a.
  change (js "## ") with [HASH; HASH; SPACE] in H. cbn [app] in H.
  pose proof (skipn_next _ _ _ _ H) as H1.
  pose proof (skipn_next _ _ _ _ H1) as H2.
  pose proof (skipn_next _ _ _ _ H2) as H3.
  replace (i + 1 + 1) with (i + 2) in * by lia.
  replace (i + 2 + 1) with (i + 3) in * by lia.
  unfold headerAt.
  rewrite Hstart, (charIs_skipn _ _ HASH _ _ H),
    (charIs_skipn _ _ HASH _ _ H1), (charIs_skipn _ _ SPACE _ _ H2).
  cbn [N.eqb Pos.eqb HASH SPACE andb].
  assert (Ha : skipn a s =
               major ++ DOT :: minor ++ DOT :: patch ++ suffix ++ tail
               /\ charIs s (i + 3) LBRACKET = ob).
  { subst a. destruct ob; cbn [app] in H3.
    - rewrite (charIs_skipn _ _ LBRACKET _ _ H3), (skipn_next _ _ _ _ H3).
      rewrite <- app_assoc. cbn [app]. rewrite <- app_assoc. cbn [app].
      rewrite <- app_assoc. split; reflexivity.
    - rewrite Nat.add_0_r, H3.
      rewrite <- app_assoc. cbn [app]. rewrite <- app_assoc. cbn [app].
      rewrite <- app_assoc. split; [reflexivity|].
      destruct Hmajor as (Hne & Hall).
      destruct major as [|d major']; [contradiction|].
      rewrite <- app_assoc in H3. cbn [app] in H3.
      rewrite (charIs_skipn _ _ _ LBRACKET _ H3).
      cbn [forallb] in Hall. apply andb_true_iff in Hall.
      destruct Hall as (Hd & _). apply N.eqb_neq. intros <-.
      discriminate. }
  destruct Ha as (Ha & ->).
  replace (if ob then i + 4 else i + 3) with a by (subst a; destruct ob; lia).
  destruct (versionAt_skipn s a major minor patch suffix tail Ha
              Hmajor Hminor Hpatch Hsuffix Htail) as (-> & Hend).
  split.
  - f_equal. f_equal.
    set (e := a + length (major ++ DOT :: minor ++ DOT :: patch ++ suffix))
      in *.
    assert (charIs s e RBRACKET = charIs tail 0 RBRACKET) as ->.
    { unfold charIs. rewrite nth_error_skipn_hd, Hend.
      destruct tail; reflexivity. }
    destruct (charIs tail 0 RBRACKET); lia.
  - rewrite Ha. rewrite <- app_assoc. cbn [app]. rewrite <- app_assoc.
    cbn [app]. rewrite <- app_assoc. reflexivity.
Qed.

(** The first heading of a text: no heading before it. *)
Lemma headingOffsets_first (s : jsstring) (h1 : nat) :
  (forall j, j < h1 -> isHeadingAt s j = false) ->
  isHeadingAt s h1 = true ->
  exists rest, headingOffsets s = h1 :: rest.
Proof.
  intros Hbefore H. unfold headingOffsets.
  destruct (isHeadingAt_inv s h1 H) as (_ & _ & Hhash & _).
  assert (h1 < length s)
    by (apply nth_error_Some; rewrite Hhash; discriminate).
  rewrite (filter_seq_skip _ h1 0 (S (length s)))
    by (try lia; intros j Hj; apply Hbefore; lia).
  replace (S (length s) - h1) with (S (length s - h1)) by lia.
  cbn [Nat.add seq filter]. rewrite H. eexists. reflexivity.
Qed.

(** What the function returns for a text whose first heading,
    bracketed or not, has a well-formed version. *)
Lemma first_heading_version (s pkg : jsstring) (h1 : nat) (ob : bool)
    (v tail : jsstring) :
  (forall j, j < h1 -> isHeadingAt s j = false) ->
  isLineStart s h1 = true ->
  skipn h1 s = js "## " ++ (if ob then [LBRACKET] else []) ++ v ++ tail ->
  isVersion v -> boundary tail = true ->
  (exists rest, headingOffsets s = h1 :: rest) /\
  extractFromContent s pkg =
  if length (firstSection s) <? 50 then None
  else Some (mkRelease pkg v (firstSection s)).
Proof.
  intros Hbefore Hstart Hs Hv Htail.
  destruct (headerAt_skipn s h1 ob v tail Hstart Hs Hv Htail)
    as (Hy & Ha).
  assert (Hhead : isHeadingAt s h1 = true)
    by (unfold isHeadingAt; rewrite matchAt_versionHeaderRegex, Hy;
        reflexivity).
  destruct (headingOffsets_first s h1 Hbefore Hhead) as (rest & Hrest).
  destruct (extractFromContent_headings s pkg h1 rest Hrest)
    as (_ & _ & m & others & Hm & Hi & Hx).
  assert (Hg : group1 m = Some v).
  { destruct (matchAllFrom_elements versionHeaderRegex s _ _ m
                ltac:(unfold matchAll in Hm; rewrite Hm; left; reflexivity))
      as (y & Hy' & ->).
    cbn [index] in Hy', Hi. rewrite Hi in Hy'.
    rewrite matchAt_versionHeaderRegex, Hy in Hy'. injection Hy' as <-.
    cbn [toMatchArray captures group1]. f_equal.
    exact (slice_skipn s _ v tail Ha). }
  split; [exists rest; exact Hrest|].
  rewrite Hx. unfold firstSection, sectionEnd. rewrite Hrest.
  unfold firstGroup. rewrite Hg. destruct rest; reflexivity.
Qed.

(** The same for a heading on the first line. *)
Lemma heading_first_line (ob : bool) (v tail pkg : jsstring) :
  isVersion v -> boundary tail = true ->
  let s := js "## " ++ (if ob then [LBRACKET] else []) ++ v ++ tail in
  isHeadingAt s 0 = true /\
  extractFromContent s pkg =
  if length (firstSection s) <? 50 then None
  else Some (mkRelease pkg v (firstSection s)).
Proof.
  intros Hv Htail s.
  destruct (first_heading_version s pkg 0 ob v tail) as ((rest & Hrest) & Hx);
    try assumption; try reflexivity.
  - intros j Hj. lia.
  - split; [|exact Hx].
    unfold headingOffsets in Hrest. apply filter_seq_cons in Hrest.
    apply Hrest.
Qed.

Lemma isVersion_1_2_3 : isVersion (js "1.2.3").
Proof.
  exists (js "1"), (js "2"), (js "3"), [].
  repeat split; try discriminate. left. reflexivity.
Qed.

(** ** The versions that are returned *)

Lemma span_firstn (p : char16 -> bool) (l : jsstring) :
  forallb p (firstn (span p l) l) = true /\
  length (firstn (span p l) l) = span p l.
Proof.
  induction l as [|c l (IH1 & IH2)]; [split; reflexivity|].
  cbn [span]. destruct (p c) eqn:E; [|split; reflexivity].
  cbn [firstn forallb length]. rewrite E, IH1, IH2. split; reflexivity.
Qed.

Lemma run_split (s : jsstring) (p : char16 -> bool) (a : nat) :
  exists m, skipn a s = m ++ skipn (a + run p s a) s /\
            forallb p m = true /\ length m = run p s a.
Proof.
  exists (firstn (run p s a) (skipn a s)).
  destruct (span_firstn p (skipn a s)) as (H1 & H2). fold (run p s a) in *.
  split; [|split; assumption].
  rewrite Nat.add_comm, <- skipn_skipn, firstn_skipn. reflexivity.
Qed.

Lemma charIs_split (s : jsstring) (j : nat) (c : char16) :
  charIs s j c = true -> skipn j s = c :: skipn (j + 1) s.
Proof.
  intros H. apply charIs_nth_error in H.
  rewrite (skipn_nth_error_Some _ _ _ _ H). rewrite Nat.add_1_r.
  reflexivity.
Qed.

Lemma number_of_run (s : jsstring) (a : nat) :
  0 < run isDigit s a ->
  exists n, isNumber n /\ skipn a s = n ++ skipn (a + run isDigit s a) s /\
            length n = run isDigit s a.
Proof.
  intros H. destruct (run_split s isDigit a) as (n & Hn & Hall & Hlen).
  exists n. split; [|split; assumption].
  split; [|exact Hall]. intros ->. cbn [length] in Hlen. lia.
Qed.

(** A version that the pattern recognises is well formed. *)
Lemma versionAt_isVersion (s : jsstring) (a e : nat) :
  versionAt s a = Some e ->
  exists v, isVersion v /\ skipn a s = v ++ skipn e s /\ e = a + length v.
Proof.
  intros H. apply versionAt_inv in H.
  destruct H as (n1 & n2 & n3 & P1 & R1 & D1 & P2 & R2 & D2 & P3 & R3 & He).
  subst n1 n2 n3.
  set (n1 := run isDigit s a) in *.
  set (b := a + n1 + 1) in *. set (n2 := run isDigit s b) in *.
  set (c := b + n2 + 1) in *. set (n3 := run isDigit s c) in *.
  destruct (number_of_run s a P1) as (major & Hmajor & S1 & L1).
  destruct (number_of_run s b P2) as (minor & Hminor & S2 & L2).
  destruct (number_of_run s c P3) as (patch & Hpatch & S3 & L3).
  fold n1 in S1, L1. fold n2 in S2, L2. fold n3 in S3, L3.
  apply charIs_split in D1, D2. fold b in D1. fold c in D2.
  assert (Hall : forall x, skipn (c + n3) s = x ->
            skipn a s = major ++ DOT :: minor ++ DOT :: patch ++ x).
  { intros x <-. rewrite S1, D1, S2, D2, S3. reflexivity. }
  assert (Hlen : forall x,
            length (major ++ DOT :: minor ++ DOT :: patch ++ x) =
            c + n3 - a + length x).
  { intros x. rewrite !length_app. cbn [length]. rewrite !length_app.
    cbn [length]. rewrite !length_app. subst c b. lia. }
  destruct He as [->|(Hhy & Hk & ->)].
  - exists (major ++ DOT :: minor ++ DOT :: patch ++ []).
    split; [|split].
    + exists major, minor, patch, []. repeat split; try apply Hmajor;
        try apply Hminor; try apply Hpatch. left. reflexivity.
    + rewrite (Hall _ eq_refl).
      repeat (rewrite <- app_assoc; cbn [app]). reflexivity.
    + rewrite Hlen. cbn [length]. subst c b. lia.
  - destruct (run_split s isPreRelease (c + n3 + 1))
      as (tag & Htag & Tall & Tlen).
    apply charIs_split in Hhy.
    exists (major ++ DOT :: minor ++ DOT :: patch ++ HYPHEN :: tag).
    split; [|split].
    + exists major, minor, patch, (HYPHEN :: tag).
      repeat split; try apply Hmajor; try apply Hminor; try apply Hpatch.
      right. exists tag. repeat split; [|exact Tall].
      intros ->. cbn [length] in Tlen. lia.
    + rewrite (Hall _ Hhy), Htag.
      repeat (rewrite <- app_assoc; cbn [app]). reflexivity.
    + rewrite Hlen. cbn [length]. rewrite Tlen. subst c b. lia.
Qed.

Lemma matchAt_version (s : jsstring) (i : nat) (y : MatchState) :
  matchAt versionHeaderRegex s i = Some y ->
  exists v, isVersion v /\ group1 (toMatchArray s i y) = Some v.
Proof.
  rewrite matchAt_versionHeaderRegex. intros H. apply headerAt_inv in H.
  destruct H as (_ & _ & _ & _ & a & e & _ & He & ->).
  apply versionAt_isVersion in He. destruct He as (v & Hv & Hs & ->).
  exists v. split; [exact Hv|].
  cbn [toMatchArray captures group1]. f_equal.
  exact (slice_skipn s a v _ Hs).
Qed.

Lemma extractFromContent_version (s pkg : jsstring) (r : LatestRelease) :
  extractFromContent s pkg = Some r -> isVersion (version r).
Proof.
  unfold extractFromContent.
  destruct (matchAll versionHeaderRegex s) as [|m others] eqn:Em;
    [discriminate|].
  destruct (_ <? 50); [discriminate|]. intros H. injection H as <-.
  cbn [version].
  destruct (matchAllFrom_elements versionHeaderRegex s _ _ m
              ltac:(unfold matchAll in Em; rewrite Em; left; reflexivity))
    as (y & Hy & Hm).
  destruct (matchAt_version s _ y Hy) as (v & Hv & Hg).
  rewrite <- Hm in Hg. unfold firstGroup. rewrite Hg. exact Hv.
Qed.

(** ** The claims about headings and versions *)

(** C4. A heading line ["## [1.2.3]"] and a heading line ["## 1.2.3"]
    are both recognised, and the version returned is ["1.2.3"] for
    both, without the brackets. *)
Theorem both_heading_forms (h : Host) (path pkg more s : jsstring) :
  s = js "## [1.2.3]" ++ LF :: more \/ s = js "## 1.2.3" ++ LF :: more ->
  readFileSync h path = Some s ->
  isHeadingAt s 0 = true /\
  extractLatestRelease h path pkg =
  Return (if length (firstSection s) <? 50 then None
          else Some (mkRelease pkg (js "1.2.3") (firstSection s))).
Proof.
  intros Hs Hread. unfold extractLatestRelease. rewrite Hread.
  destruct Hs as [->| ->].
  - destruct (heading_first_line true (js "1.2.3")
                (RBRACKET :: LF :: more) pkg isVersion_1_2_3 eq_refl)
      as (Hhead & Hx).
    split; [exact Hhead|]. f_equal. exact Hx.
  - destruct (heading_first_line false (js "1.2.3")
                (LF :: more) pkg isVersion_1_2_3 eq_refl)
      as (Hhead & Hx).
    split; [exact Hhead|]. f_equal. exact Hx.
Qed.

Lemma both_heading_forms_witness :
  extractLatestRelease (demoHost (Some (underHeading (js "## 1.2.3"))))
    demoPath (js "instantsearch.js") =
  Return (Some (mkRelease (js "instantsearch.js") (js "1.2.3")
                  (js "## 1.2.3" ++ LF :: js "- Added widget X" ++ LF ::
                   js "- Fixed bug Y in component Z"))).
Proof.
  destruct (both_heading_forms
              (demoHost (Some (underHeading (js "## 1.2.3")))) demoPath
              (js "instantsearch.js") notes
              (underHeading (js "## 1.2.3")) (or_intror eq_refl) eq_refl)
    as (_ & H).
  rewrite H. reflexivity.
Defined.

(** C9. The two brackets are optional independently: a heading line
    with the opening bracket only, ["## [1.2.3"], or with the closing
    bracket only, ["## 1.2.3]"], is recognised and the version returned
    is ["1.2.3"]. *)
Theorem mismatched_brackets (h : Host) (path pkg more s : jsstring) :
  s = js "## [1.2.3" ++ LF :: more \/ s = js "## 1.2.3]" ++ LF :: more ->
  readFileSync h path = Some s ->
  isHeadingAt s 0 = true /\
  extractLatestRelease h path pkg =
  Return (if length (firstSection s) <? 50 then None
          else Some (mkRelease pkg (js "1.2.3") (firstSection s))).
Proof.
  intros Hs Hread. unfold extractLatestRelease. rewrite Hread.
  destruct Hs as [->| ->].
  - destruct (heading_first_line true (js "1.2.3")
                (LF :: more) pkg isVersion_1_2_3 eq_refl)
      as (Hhead & Hx).
    split; [exact Hhead|]. f_equal. exact Hx.
  - destruct (heading_first_line false (js "1.2.3")
                (RBRACKET :: LF :: more) pkg isVersion_1_2_3 eq_refl)
      as (Hhead & Hx).
    split; [exact Hhead|]. f_equal. exact Hx.
Qed.

Lemma mismatched_brackets_witness :
  extractLatestRelease (demoHost (Some (underHeading (js "## [1.2.3"))))
    demoPath (js "instantsearch.js") =
  Return (Some (mkRelease (js "instantsearch.js") (js "1.2.3")
                  (js "## [1.2.3" ++ LF :: js "- Added widget X" ++ LF ::
                   js "- Fixed bug Y in component Z"))).
Proof.
  destruct (mismatched_brackets
              (demoHost (Some (underHeading (js "## [1.2.3")))) demoPath
              (js "instantsearch.js") notes
              (underHeading (js "## [1.2.3")) (or_introl eq_refl) eq_refl)
    as (_ & H).
  rewrite H. reflexivity.
Defined.

(** C5. When the first heading of a text, bracketed or not, has a
    version with a pre-release suffix (a hyphen, then letters, digits
    and dots), the version returned is that version with its suffix;
    and every version returned is MAJOR.MINOR.PATCH, possibly followed
    by such a suffix. *)
Theorem prerelease_preserved :
  (forall h path pkg s h1 (ob : bool) major minor patch tag tail,
     readFileSync h path = Some s ->
     (forall j, j < h1 -> isHeadingAt s j = false) ->
     isLineStart s h1 = true ->
     isNumber major -> isNumber minor -> isNumber patch -> isTag tag ->
     boundary tail = true ->
     let v := major ++ DOT :: minor ++ DOT :: patch ++ HYPHEN :: tag in
     skipn h1 s = js "## " ++ (if ob then [LBRACKET] else []) ++ v ++ tail ->
     extractLatestRelease h path pkg =
     Return (if length (firstSection s) <? 50 then None
             else Some (mkRelease pkg v (firstSection s)))) /\
  (forall h path pkg r,
     extractLatestRelease h path pkg = Return (Some r) ->
     isVersion (version r)).
Proof.
  split.
  - intros h path pkg s h1 ob major minor patch tag tail Hread Hbefore
      Hstart Hmajor Hminor Hpatch Htag Htail v Hs.
    unfold extractLatestRelease. rewrite Hread. f_equal.
    apply (first_heading_version s pkg h1 ob v tail); try assumption.
    exists major, minor, patch, (HYPHEN :: tag).
    repeat split; try apply Hmajor; try apply Hminor; try apply Hpatch.
    right. exists tag. split; [reflexivity|exact Htag].
  - intros h path pkg r. unfold extractLatestRelease.
    destruct (readFileSync h path) as [s|]; [|discriminate].
    intros H. injection H as H.
    exact (extractFromContent_version s pkg r H).
Qed.

Lemma prerelease_preserved_witness :
  extractLatestRelease
    (demoHost (Some (underHeading (js "## [1.2.3-beta.1]"))))
    demoPath (js "instantsearch.js") =
  Return (Some (mkRelease (js "instantsearch.js") (js "1.2.3-beta.1")
                  (js "## [1.2.3-beta.1]" ++ LF :: js "- Added widget X" ++
                   LF :: js "- Fixed bug Y in component Z"))) /\
  isVersion (js "1.2.3-beta.1").
Proof.
  destruct prerelease_preserved as (Hkeep & Hform).
  pose proof (Hkeep
    (demoHost (Some (underHeading (js "## [1.2.3-beta.1]")))) demoPath
    (js "instantsearch.js") (underHeading (js "## [1.2.3-beta.1]")) 0 true
    (js "1") (js "2") (js "3") (js "beta.1") (RBRACKET :: LF :: notes)
    eq_refl) as H.
  assert (Hx : extractLatestRelease
    (demoHost (Some (underHeading (js "## [1.2.3-beta.1]"))))
    demoPath (js "instantsearch.js") =
    Return (Some (mkRelease (js "instantsearch.js") (js "1.2.3-beta.1")
                  (js "## [1.2.3-beta.1]" ++ LF :: js "- Added widget X" ++
                   LF :: js "- Fixed bug Y in component Z")))).
  { rewrite H.
    - reflexivity.
    - intros j Hj. lia.
    - reflexivity.
    - split; [discriminate|reflexivity].
    - split; [discriminate|reflexivity].
    - split; [discriminate|reflexivity].
    - split; [discriminate|reflexivity].
    - reflexivity.
    - reflexivity. }
  split; [exact Hx|].
  exact (Hform _ _ _ _ Hx).
Defined.

(** Against C6 as it is worded: the body that is returned for the
    example starts with the heading line of 4.87.0, it is not the two
    bullet lines alone. *)
Lemma demo_body_not_bullets_only :
  ~ (exists r,
       extractLatestRelease (demoHost (Some demo)) demoPath
         (js "instantsearch.js") = Return (Some r) /\
       version r = js "4.87.0" /\
       content r = js "- Added widget X" ++ LF ::
                   js "- Fixed bug Y in component Z").
Proof.
  intros (r & H & _ & Hc). vm_compute in H. injection H as <-.
  vm_compute in Hc. discriminate.
Qed.

(** C6, amended. For the example of the specification the function
    returns version ["4.87.0"] and, as body, the heading line of 4.87.0
    followed by the two bullet lines under it, trimmed; the heading of
    4.86.0 and what follows it are left out. *)
Theorem demo_release (h : Host) (path pkg : jsstring) :
  readFileSync h path = Some demo ->
  extractLatestRelease h path pkg =
  Return (Some (mkRelease pkg (js "4.87.0")
                  (js "## [4.87.0]" ++ LF :: js "- Added widget X" ++ LF ::
                   js "- Fixed bug Y in component Z"))).
Proof.
  intros Hread. unfold extractLatestRelease. rewrite Hread. reflexivity.
Qed.

Lemma demo_release_witness :
  extractLatestRelease (demoHost (Some demo)) demoPath
    (js "instantsearch.js") =
  Return (Some (mkRelease (js "instantsearch.js") (js "4.87.0")
                  (js "## [4.87.0]" ++ LF :: js "- Added widget X" ++ LF ::
                   js "- Fixed bug Y in component Z"))).
Proof.
  apply (demo_release (demoHost (Some demo))). reflexivity.
Defined.

(** Where [matchAll] finds a heading: at offset 0 or just after a line
    terminator, and in front of two hashes and a space. *)
Lemma match_at_line_start (s : jsstring) (m : MatchArray) :
  In m (matchAll versionHeaderRegex s) ->
  (index m = 0 \/
   exists c, nth_error s (index m - 1) = Some c /\
             isLineTerminator c = true) /\
  slice s (index m) (index m + 3) = js "## ".
Proof.
  intros Hin. unfold matchAll in Hin.
  apply matchAllFrom_elements in Hin. destruct Hin as (y & Hy & _).
  rewrite matchAt_versionHeaderRegex in Hy. apply headerAt_inv in Hy.
  destruct Hy as (Hstart & H0 & H1 & H2 & _). split.
  - destruct (index m) as [|i]; [left; reflexivity|right].
    cbn [isLineStart] in Hstart. rewrite Nat.sub_1_r. cbn [Nat.pred].
    destruct (nth_error s i) as [c|]; [|discriminate].
    exists c. split; [reflexivity|exact Hstart].
  - apply charIs_split in H0, H1, H2.
    replace (index m + 1 + 1) with (index m + 2) in H1 by lia.
    rewrite H1, H2 in H0.
    exact (slice_skipn s (index m) [HASH; HASH; SPACE] _ H0).
Qed.

(** C10. A version heading is recognised only at the start of a line,
    and only when the line starts with two hashes and a space. So no
    heading is found where three hashes start (a deeper heading), nor
    just after a code unit that ends no line (an indented heading, a
    heading in the middle of a line); texts with such a line and no
    other heading yield nothing. *)
Theorem heading_only_at_line_start :
  (forall s m, In m (matchAll versionHeaderRegex s) ->
     (index m = 0 \/
      exists c, nth_error s (index m - 1) = Some c /\
                isLineTerminator c = true) /\
     slice s (index m) (index m + 3) = js "## ") /\
  (forall s m, In m (matchAll versionHeaderRegex s) ->
     slice s (index m) (index m + 3) <> js "###") /\
  (forall s m c, In m (matchAll versionHeaderRegex s) ->
     0 < index m -> nth_error s (index m - 1) = Some c ->
     isLineTerminator c = true) /\
  (forall h path pkg s,
     readFileSync h path = Some s ->
     s = underHeading (js "### 1.2.3") \/
     s = underHeading (js "  ## 1.2.3") \/
     s = underHeading (js "Release ## [1.2.3]") ->
     matchAll versionHeaderRegex s = [] /\
     extractLatestRelease h path pkg = Return None).
Proof.
  split; [exact match_at_line_start|]. split; [|split].
  - intros s m Hin. destruct (match_at_line_start s m Hin) as (_ & ->).
    discriminate.
  - intros s m c Hin Hpos Hc.
    destruct (match_at_line_start s m Hin) as ([H0|(c' & Hc' & Ht)] & _);
      [lia|]. congruence.
  - intros h path pkg s Hread Hs. unfold extractLatestRelease.
    rewrite Hread. destruct Hs as [->|[->| ->]]; split; reflexivity.
Qed.

Lemma heading_only_at_line_start_witness :
  ((58 = 0 \/ exists c, nth_error demo (58 - 1) = Some c /\
                         isLineTerminator c = true) /\
   slice demo 58 (58 + 3) = js "## ") /\
  matchAll versionHeaderRegex (underHeading (js "### 1.2.3")) = [].
Proof.
  destruct heading_only_at_line_start as (Hmatch & _ & _ & Hnot). split.
  - apply (Hmatch demo (mkMatch 58 (js "## [4.86.0]") (Some (js "4.86.0")))).
    vm_compute. right. left. reflexivity.
  - apply (Hnot (demoHost (Some (underHeading (js "### 1.2.3")))) demoPath
             (js "instantsearch.js") (underHeading (js "### 1.2.3")));
      [reflexivity|left; reflexivity].
Defined.

(** ** [main] *)

Lemma logIf_no_error (verbose : bool) (line : jsstring)
    (console : list Output) :
  (forall e, ~ In (ErrorLog e) console) ->
  forall e, ~ In (ErrorLog e) (logIf verbose line console).
Proof.
  intros H e. unfold logIf. destruct verbose; [|apply H].
  intros Hin. apply in_app_or in Hin. destruct Hin as [Hin|[Hin|[]]].
  - exact (H e Hin).
  - discriminate.
Qed.

(** When no package has a release, the loop ends normally with the
    releases it started from, and has printed no error. *)
Lemma scanPackages_none (h : Host) (verbose : bool) (dir : jsstring) :
  forall packages releases console,
  (forall pkg, In pkg packages ->
     existsSync h (join h [dir; pkg; js "CHANGELOG.md"]) = false \/
     extractLatestRelease h (join h [dir; pkg; js "CHANGELOG.md"]) pkg
     = Return None) ->
  (forall e, ~ In (ErrorLog e) console) ->
  exists console',
    scanPackages h verbose dir packages releases console
    = (console', Return releases) /\
    forall e, ~ In (ErrorLog e) console'.
Proof.
  induction packages as [|pkg packages IH]; intros releases console H Hc.
  - exists console. split; [reflexivity|exact Hc].
  - cbn [scanPackages].
    assert (Hrest : forall pkg', In pkg' packages ->
      existsSync h (join h [dir; pkg'; js "CHANGELOG.md"]) = false \/
      extractLatestRelease h (join h [dir; pkg'; js "CHANGELOG.md"]) pkg'
      = Return None) by (intros pkg' Hin; apply H; right; exact Hin).
    destruct (existsSync h (join h [dir; pkg; js "CHANGELOG.md"])) eqn:E;
      cbn [negb].
    + destruct (H pkg (or_introl eq_refl)) as [Hf|Hx]; [congruence|].
      rewrite Hx. apply IH; [exact Hrest|].
      apply logIf_no_error. exact Hc.
    + apply IH; [exact Hrest|]. apply logIf_no_error. exact Hc.
Qed.

(** When a changelog that exists cannot be read, the loop throws. *)
Lemma scanPackages_throw (h : Host) (verbose : bool) (dir : jsstring) :
  forall packages releases console,
  (exists pkg, In pkg packages /\
     existsSync h (join h [dir; pkg; js "CHANGELOG.md"]) = true /\
     readFileSync h (join h [dir; pkg; js "CHANGELOG.md"]) = None) ->
  exists console' e,
    scanPackages h verbose dir packages releases console
    = (console', Throw e).
Proof.
  induction packages as [|pkg packages IH];
    intros releases console (bad & Hin & Hex & Hread); [destruct Hin|].
  cbn [scanPackages]. unfold extractLatestRelease.
  destruct (existsSync h (join h [dir; pkg; js "CHANGELOG.md"])) eqn:E;
    cbn [negb].
  - destruct (readFileSync h (join h [dir; pkg; js "CHANGELOG.md"]))
      as [text|] eqn:R.
    + assert (Hbad : In bad packages)
        by (destruct Hin as [->|Hin]; [congruence|exact Hin]).
      destruct (extractFromContent text pkg); apply IH; exists bad;
        repeat split; assumption.
    + eexists _, _. reflexivity.
  - assert (Hbad : In bad packages)
      by (destruct Hin as [->|Hin]; [congruence|exact Hin]).
    apply IH. exists bad. repeat split; assumption.
Qed.

(** More iterations do not change the result of [getRepoRoot], nor
    that of the script. *)
Lemma getRepoRootFrom_fuel (h : Host) (root : jsstring) :
  forall fuel fuel' dir, fuel <= fuel' ->
  getRepoRootFrom h fuel dir = Some root ->
  getRepoRootFrom h fuel' dir = Some root.
Proof.
  induction fuel as [|fuel IH]; intros fuel' dir Hle H; [discriminate|].
  destruct fuel' as [|fuel']; [lia|]. cbn [getRepoRootFrom] in *.
  destruct (jsstring_eqb dir (js "/")); [exact H|].
  destruct (existsSync h _); [exact H|].
  apply IH; [lia|exact H].
Qed.

Lemma script_fuel
    (report : list LatestRelease -> option jsstring -> list Output ->
              list Output * Outcome unit)
    (h : Host) (fuel fuel' : nat) (result : list Output * Outcome unit) :
  fuel <= fuel' -> script report h fuel = Some result ->
  script report h fuel' = Some result.
Proof.
  intros Hle. unfold script, main, getRepoRoot.
  destruct (getRepoRootFrom h fuel (cwd h)) as [root|] eqn:E;
    [|discriminate].
  rewrite (getRepoRootFrom_fuel h root fuel fuel' (cwd h) Hle E).
  intros H. exact H.
Qed.

Lemma command_of_argv (h : Host) (command : jsstring) :
  nth_error (argv h) 2 = Some command -> command <> [] ->
  truthy (nth_error (skipn 2 (argv h)) 0) = Some command.
Proof.
  intros H Hne. destruct (argv h) as [|a0 [|a1 [|a2 args]]];
    try discriminate.
  cbn in H |- *. injection H as ->. destruct command; [contradiction|].
  reflexivity.
Qed.

(** C8. When the command is [generate-prompt] and no package yields a
    release, the script prints that no package needs documentation,
    prints no error, and exits with status 0. *)
Theorem nothing_to_do
    (report : list LatestRelease -> option jsstring -> list Output ->
              list Output * Outcome unit)
    (h : Host) (fuel : nat) (repoRoot : jsstring) :
  nth_error (argv h) 2 = Some (js "generate-prompt") ->
  getRepoRoot h fuel = Some repoRoot ->
  (forall pkg, In pkg MAIN_DOC_PACKAGES ->
     existsSync h (changelogOf h repoRoot pkg) = false \/
     extractLatestRelease h (changelogOf h repoRoot pkg) pkg = Return None) ->
  exists console,
    script report h fuel =
    Some (console ++
          [Log (js "No packages with documentation needs detected")],
          Exit 0) /\
    forall e, ~ In (ErrorLog e) console.
Proof.
  intros Hcmd Hroot Hnone. unfold script, main.
  rewrite (command_of_argv h _ Hcmd) by discriminate. rewrite Hroot.
  assert (jsstring_eqb (js "generate-prompt") (js "generate-prompt") = true)
    as -> by reflexivity.
  set (console0 := if includes _ _ then _ else _).
  assert (Hc0 : forall e, ~ In (ErrorLog e) console0).
  { intros e. subst console0. destruct (includes _ _).
    - intros [Hin|[Hin|[]]]; discriminate.
    - intros []. }
  destruct (scanPackages_none h (includes (skipn 2 (argv h)) (js "--verbose"))
              (join h [repoRoot; js "packages"]) MAIN_DOC_PACKAGES []
              console0 Hnone Hc0) as (console & Hscan & Hc).
  rewrite Hscan. cbn [length Nat.eqb]. exists console.
  split; [reflexivity|exact Hc].
Qed.

Lemma nothing_to_do_witness :
  script (fun _ _ console => (console, Return tt))
    (demoHost (Some bumpOnly)) 1 =
  Some ([Log (js "No packages with documentation needs detected")], Exit 0).
Proof.
  destruct (nothing_to_do (fun _ _ console => (console, Return tt))
              (demoHost (Some bumpOnly)) 1 (js "/repo") eq_refl eq_refl)
    as (console & H & _).
  - intros pkg [<-|[<-|[<-|[]]]];
      [right; reflexivity|left; reflexivity|left; reflexivity].
  - reflexivity.
Defined.

(** * Further properties of the script *)

(** ** [getRepoRoot] *)

Lemma jsstring_eqb_eq (a b : jsstring) :
  jsstring_eqb a b = true <-> a = b.
Proof.
  revert b. induction a as [|x a IH]; intros [|y b]; cbn [jsstring_eqb];
    try (split; [discriminate|discriminate]); [split; reflexivity|].
  rewrite andb_true_iff, N.eqb_eq, IH. split.
  - intros (-> & ->). reflexivity.
  - intros H. injection H as -> ->. split; reflexivity.
Qed.

Lemma jsstring_eqb_neq (a b : jsstring) :
  jsstring_eqb a b = false <-> a <> b.
Proof.
  rewrite <- jsstring_eqb_eq. destruct (jsstring_eqb a b).
  - split; [discriminate|]. intros H. destruct (H eq_refl).
  - split; [discriminate|reflexivity].
Qed.

(** What the loop returns, started at any directory. *)
Lemma getRepoRootFrom_inv (h : Host) (root : jsstring) :
  forall fuel dir, getRepoRootFrom h fuel dir = Some root ->
  exists k, k < fuel /\
    (forall j, j < k ->
       Nat.iter j (dirname h) dir <> js "/" /\
       hasMarker h (Nat.iter j (dirname h) dir) = false) /\
    (Nat.iter k (dirname h) dir = js "/" /\ root = cwd h \/
     Nat.iter k (dirname h) dir <> js "/" /\
     hasMarker h (Nat.iter k (dirname h) dir) = true /\
     root = Nat.iter k (dirname h) dir).
Proof.
  induction fuel as [|fuel IH]; intros dir H; [discriminate|].
  cbn [getRepoRootFrom] in H.
  destruct (jsstring_eqb dir (js "/")) eqn:Eroot.
  - apply jsstring_eqb_eq in Eroot. injection H as <-.
    exists 0. split; [lia|]. split; [intros j Hj; lia|].
    left. split; [exact Eroot|reflexivity].
  - apply jsstring_eqb_neq in Eroot.
    destruct (existsSync h _) eqn:Emark.
    + injection H as <-. exists 0. split; [lia|].
      split; [intros j Hj; lia|]. right. repeat split; assumption.
    + apply IH in H. destruct H as (k & Hk & Hbefore & Hat).
      exists (S k). split; [lia|]. rewrite Nat.iter_succ_r. split.
      * intros [|j] Hj; [split; assumption|].
        rewrite Nat.iter_succ_r. apply Hbefore. lia.
      * exact Hat.
Qed.

(** What the loop returns after a walk of [k] steps. *)
Lemma getRepoRootFrom_walk (h : Host) :
  forall k fuel dir, k < fuel ->
  (forall j, j < k ->
     Nat.iter j (dirname h) dir <> js "/" /\
     hasMarker h (Nat.iter j (dirname h) dir) = false) ->
  (Nat.iter k (dirname h) dir = js "/" ->
   getRepoRootFrom h fuel dir = Some (cwd h)) /\
  (Nat.iter k (dirname h) dir <> js "/" ->
   hasMarker h (Nat.iter k (dirname h) dir) = true ->
   getRepoRootFrom h fuel dir = Some (Nat.iter k (dirname h) dir)).
Proof.
  induction k as [|k IH]; intros [|fuel] dir Hk Hbefore; try lia;
    cbn [getRepoRootFrom].
  - change (Nat.iter 0 (dirname h) dir) with dir. split.
    + intros ->. reflexivity.
    + intros Hroot Hmark. apply jsstring_eqb_neq in Hroot.
      rewrite Hroot. unfold hasMarker in Hmark. rewrite Hmark.
      reflexivity.
  - destruct (Hbefore 0 ltac:(lia)) as (Hroot & Hmark).
    change (Nat.iter 0 (dirname h) dir) with dir in Hroot, Hmark.
    apply jsstring_eqb_neq in Hroot. rewrite Hroot.
    unfold hasMarker in Hmark. rewrite Hmark.
    rewrite Nat.iter_succ_r. apply IH; [lia|].
    intros j Hj. rewrite <- Nat.iter_succ_r. apply Hbefore. lia.
Qed.

(** X9. [getRepoRoot] walks up from the working directory with
    [path.dirname]: when the first directory on the way that is ["/"]
    or holds [packages/instantsearch.js] holds it, that directory is
    returned, and when it is ["/"] the working directory is returned,
    ["/"] itself not being looked into; and whatever is returned is
    returned in this way. *)
Theorem getRepoRoot_nearest (h : Host) :
  (forall k fuel, k < fuel ->
     (forall j, j < k ->
        ancestor h j <> js "/" /\ hasMarker h (ancestor h j) = false) ->
     (ancestor h k = js "/" -> getRepoRoot h fuel = Some (cwd h)) /\
     (ancestor h k <> js "/" -> hasMarker h (ancestor h k) = true ->
      getRepoRoot h fuel = Some (ancestor h k))) /\
  (forall fuel root, getRepoRoot h fuel = Some root ->
   exists k, k < fuel /\
     (forall j, j < k ->
        ancestor h j <> js "/" /\ hasMarker h (ancestor h j) = false) /\
     (ancestor h k = js "/" /\ root = cwd h \/
      ancestor h k <> js "/" /\ hasMarker h (ancestor h k) = true /\
      root = ancestor h k)).
Proof.
  split.
  - intros k fuel Hk Hbefore.
    exact (getRepoRootFrom_walk h k fuel (cwd h) Hk Hbefore).
  - intros fuel root H. exact (getRepoRootFrom_inv h root fuel (cwd h) H).
Qed.

Lemma getRepoRoot_nearest_witness :
  getRepoRoot (walkHost true) 3 = Some (js "/repo") /\
  getRepoRoot (walkHost false) 4 = Some (js "/repo/scripts/docs-automation").
Proof.
  split.
  - destruct (getRepoRoot_nearest (walkHost true)) as (Hwalk & _).
    apply (Hwalk 2 3); [lia| |discriminate|reflexivity].
    intros [|[|j]] Hj; try lia;
      (split; [intros H; vm_compute in H; discriminate H|reflexivity]).
  - destruct (getRepoRoot_nearest (walkHost false)) as (Hwalk & _).
    apply (Hwalk 3 4); [lia| |reflexivity].
    intros [|[|[|j]]] Hj; try lia;
      (split; [intros H; vm_compute in H; discriminate H|reflexivity]).
Defined.

(** The loop ends as soon as a directory is ["/"] or holds the
    marker. *)
Lemma getRepoRootFrom_stops (h : Host) :
  forall k dir,
  Nat.iter k (dirname h) dir = js "/" \/
  hasMarker h (Nat.iter k (dirname h) dir) = true ->
  exists root, getRepoRootFrom h (S k) dir = Some root.
Proof.
  induction k as [|k IH]; intros dir H; cbn [getRepoRootFrom].
  - change (Nat.iter 0 (dirname h) dir) with dir in H.
    destruct (jsstring_eqb dir (js "/")) eqn:E; [eexists; reflexivity|].
    destruct H as [H|H]; [apply jsstring_eqb_eq in H; congruence|].
    unfold hasMarker in H. rewrite H. eexists. reflexivity.
  - destruct (jsstring_eqb dir (js "/")); [eexists; reflexivity|].
    destruct (existsSync h _); [eexists; reflexivity|].
    apply IH. rewrite <- Nat.iter_succ_r. exact H.
Qed.

(** X10. [getRepoRoot] returns when some directory above the working
    directory is ["/"] or holds the marker, after at most that many
    steps; when none is, as where [path.dirname] stays on a drive
    root, the loop never ends. *)
Theorem getRepoRoot_termination (h : Host) :
  (forall k,
     ancestor h k = js "/" \/ hasMarker h (ancestor h k) = true ->
     exists root, getRepoRoot h (S k) = Some root) /\
  ((forall k, ancestor h k <> js "/" /\ hasMarker h (ancestor h k) = false)
   -> forall fuel, getRepoRoot h fuel = None).
Proof.
  split.
  - intros k H. exact (getRepoRootFrom_stops h k (cwd h) H).
  - intros Hnever fuel.
    destruct (getRepoRoot h fuel) as [root|] eqn:E; [|reflexivity].
    apply getRepoRootFrom_inv in E. destruct E as (k & _ & _ & Hat).
    destruct (Hnever k) as (Hroot & Hmark). unfold ancestor in *.
    destruct Hat as [(H & _)|(_ & H & _)]; congruence.
Qed.

Lemma getRepoRoot_termination_witness :
  (exists root, getRepoRoot (demoHost None) 2 = Some root) /\
  forall fuel, getRepoRoot stuckHost fuel = None.
Proof.
  split.
  - destruct (getRepoRoot_termination (demoHost None)) as (Hstop & _).
    apply (Hstop 1). left. reflexivity.
  - destruct (getRepoRoot_termination stuckHost) as (_ & Hloop).
    apply Hloop. intros k. split.
    + destruct k; intros H; discriminate H.
    + reflexivity.
Defined.

(** ** The loop over the packages *)

Lemma extractFromContent_packageName (s pkg : jsstring) (r : LatestRelease) :
  extractFromContent s pkg = Some r ->
  packageName r = pkg /\ 50 <= length (content r).
Proof.
  unfold extractFromContent.
  destruct (matchAll versionHeaderRegex s) as [|m others]; [discriminate|].
  destruct (Nat.ltb_spec (length (trim (slice s (index m)
              match others with
              | [] => length s
              | second :: _ => index second
              end))) 50) as [|Hlen]; [discriminate|].
  intros H. injection H as <-. split; [reflexivity|exact Hlen].
Qed.

Lemma releasesOf_cons (h : Host) (dir pkg : jsstring)
    (packages : list jsstring) :
  releasesOf h dir (pkg :: packages) =
  match releaseOf h dir pkg with
  | Some release => [release]
  | None => []
  end ++ releasesOf h dir packages.
Proof. reflexivity. Qed.

(** When the changelogs that exist can be read, the loop ends normally
    and has appended the releases of the packages, one after the
    other. *)
Lemma scanPackages_readable (h : Host) (verbose : bool) (dir : jsstring) :
  forall packages releases console,
  readable h dir packages ->
  exists console',
    scanPackages h verbose dir packages releases console
    = (console', Return (releases ++ releasesOf h dir packages)).
Proof.
  induction packages as [|pkg packages IH]; intros releases console Hr.
  - exists console. cbn [scanPackages releasesOf flat_map].
    rewrite app_nil_r. reflexivity.
  - assert (Hr' : readable h dir packages)
      by (intros p Hp; apply Hr; right; exact Hp).
    rewrite releasesOf_cons. unfold releaseOf.
    cbn [scanPackages]. unfold extractLatestRelease.
    destruct (existsSync h (join h [dir; pkg; js "CHANGELOG.md"])) eqn:E;
      cbn [negb].
    + destruct (readFileSync h (join h [dir; pkg; js "CHANGELOG.md"]))
        as [text|] eqn:R;
        [|destruct (Hr pkg (or_introl eq_refl) E R)].
      destruct (extractFromContent text pkg) as [release|].
      * rewrite (app_assoc releases [release]). apply IH. exact Hr'.
      * apply IH. exact Hr'.
    + apply IH. exact Hr'.
Qed.

(** X11. When every changelog that exists can be read, the loop of [main]
    ends normally with the releases of the packages in the order of
    the packages: for each package whose changelog exists and has a
    section of 50 code units or more, that release under the name of
    the package; so at most one release for a package. *)
Theorem scanPackages_collects (h : Host) (verbose : bool)
    (dir : jsstring) (packages : list jsstring) (console : list Output) :
  readable h dir packages ->
  (exists console',
     scanPackages h verbose dir packages [] console
     = (console', Return (releasesOf h dir packages))) /\
  map packageName (releasesOf h dir packages)
  = filter (fun pkg => match releaseOf h dir pkg with
                       | Some _ => true
                       | None => false
                       end) packages.
Proof.
  intros Hr. split.
  - exact (scanPackages_readable h verbose dir packages [] console Hr).
  - clear Hr. induction packages as [|pkg packages IH]; [reflexivity|].
    rewrite releasesOf_cons. cbn [filter].
    destruct (releaseOf h dir pkg) as [release|] eqn:E;
      cbn [app map]; [|exact IH].
    rewrite IH. f_equal. unfold releaseOf in E.
    destruct (existsSync h _); [|discriminate].
    destruct (readFileSync h _) as [text|]; [|discriminate].
    apply (extractFromContent_packageName text pkg release E).
Qed.

Lemma scanPackages_collects_witness :
  (exists console',
     scanPackages (demoHost (Some demo)) true (js "/repo/packages")
       MAIN_DOC_PACKAGES [] []
     = (console',
        Return (releasesOf (demoHost (Some demo)) (js "/repo/packages")
                  MAIN_DOC_PACKAGES))) /\
  map packageName
    (releasesOf (demoHost (Some demo)) (js "/repo/packages")
       MAIN_DOC_PACKAGES) = [js "instantsearch.js"].
Proof.
  apply (scanPackages_collects (demoHost (Some demo)) true
           (js "/repo/packages") MAIN_DOC_PACKAGES []).
  intros pkg [<-|[<-|[<-|[]]]] H; try discriminate H.
  vm_compute. discriminate.
Defined.


(** The loop goes through the packages that can be read. *)
Lemma scanPackages_app (h : Host) (verbose : bool) (dir : jsstring)
    (rest : list jsstring) :
  forall before releases console,
  readable h dir before ->
  exists releases' console',
    scanPackages h verbose dir (before ++ rest) releases console
    = scanPackages h verbose dir rest releases' console'.
Proof.
  induction before as [|pkg before IH]; intros releases console Hr.
  - exists releases, console. reflexivity.
  - assert (Hr' : readable h dir before)
      by (intros p Hp; apply Hr; right; exact Hp).
    cbn [app scanPackages]. unfold extractLatestRelease.
    destruct (existsSync h (join h [dir; pkg; js "CHANGELOG.md"])) eqn:E;
      cbn [negb].
    + destruct (readFileSync h (join h [dir; pkg; js "CHANGELOG.md"]))
        as [text|] eqn:R;
        [|destruct (Hr pkg (or_introl eq_refl) E R)].
      destruct (extractFromContent text pkg); apply IH; exact Hr'.
    + apply IH. exact Hr'.
Qed.

Lemma command_generate_prompt (h : Host) :
  commandOf h = js "generate-prompt" <->
  nth_error (argv h) 2 = Some (js "generate-prompt").
Proof.
  unfold commandOf.
  destruct (argv h) as [|a0 [|a1 [|a2 args]]]; cbn;
    try (split; discriminate).
  destruct a2 as [|c a2]; cbn; [split; discriminate|].
  split; [intros ->; reflexivity|intros H; congruence].
Qed.

(** X13. The first changelog that exists and cannot be read ends the
    script: the error it reports is the failure to read that file, the
    packages after it are not looked at, and the exit status is 1. *)
Theorem first_unreadable_reported
    (report : list LatestRelease -> option jsstring -> list Output ->
              list Output * Outcome unit)
    (h : Host) (fuel : nat) (repoRoot : jsstring)
    (before after : list jsstring) (bad : jsstring) :
  nth_error (argv h) 2 = Some (js "generate-prompt") ->
  getRepoRoot h fuel = Some repoRoot ->
  MAIN_DOC_PACKAGES = before ++ bad :: after ->
  readable h (join h [repoRoot; js "packages"]) before ->
  existsSync h (changelogOf h repoRoot bad) = true ->
  readFileSync h (changelogOf h repoRoot bad) = None ->
  exists console,
    script report h fuel =
    Some (console ++ [ErrorLog (ReadError (changelogOf h repoRoot bad))],
          Exit 1).
Proof.
  intros Hcmd Hroot Hpkgs Hr Hex Hread. unfold script, main.
  rewrite (command_of_argv h _ Hcmd) by discriminate. rewrite Hroot.
  assert (jsstring_eqb (js "generate-prompt") (js "generate-prompt") = true)
    as -> by reflexivity.
  rewrite Hpkgs.
  set (console0 := if includes _ _ then _ else _).
  destruct (scanPackages_app h (includes (skipn 2 (argv h)) (js "--verbose"))
              (join h [repoRoot; js "packages"]) (bad :: after) before []
              console0 Hr) as (releases & console & ->).
  cbn [scanPackages]. unfold changelogOf in Hex, Hread.
  rewrite Hex. cbn [negb]. unfold extractLatestRelease. rewrite Hread.
  exists console. reflexivity.
Qed.

Lemma first_unreadable_reported_witness :
  exists console,
    script (fun _ _ console => (console, Return tt)) (demoHost None) 1 =
    Some (console ++ [ErrorLog (ReadError demoPath)], Exit 1).
Proof.
  apply (first_unreadable_reported _ (demoHost None) 1 (js "/repo") []
           [js "react-instantsearch"; js "vue-instantsearch"]
           (js "instantsearch.js")); try reflexivity.
  intros pkg [].
Defined.

(** X14. With any other command than [generate-prompt], with none, or
    with an empty one, the script prints the usage text and returns
    normally; it looks at no changelog. *)
Theorem other_commands_print_usage
    (report : list LatestRelease -> option jsstring -> list Output ->
              list Output * Outcome unit)
    (h : Host) (fuel : nat) (repoRoot : jsstring) :
  nth_error (argv h) 2 <> Some (js "generate-prompt") ->
  getRepoRoot h fuel = Some repoRoot ->
  script report h fuel =
  Some ((if verboseOf h
         then [Log (js "Repo root: " ++ repoRoot);
               Log (js "Packages dir: " ++ join h [repoRoot; js "packages"])]
         else []) ++ [Log usage],
        Return tt).
Proof.
  intros Hcmd Hroot. unfold script, main. rewrite Hroot.
  fold (commandOf h). fold (verboseOf h).
  destruct (jsstring_eqb (commandOf h) (js "generate-prompt")) eqn:E;
    [|reflexivity].
  apply jsstring_eqb_eq, command_generate_prompt in E. contradiction.
Qed.

Lemma other_commands_print_usage_witness :
  script (fun _ _ console => (console, Return tt))
    (mkHost [js "node"; js "src/index.ts"] (js "/") (fun _ => false)
       (fun _ => None) joinPosix (fun _ => js "/")) 1 =
  Some ([Log usage], Return tt).
Proof.
  apply (other_commands_print_usage _
           (mkHost [js "node"; js "src/index.ts"] (js "/") (fun _ => false)
              (fun _ => None) joinPosix (fun _ => js "/")) 1 (js "/"));
    [discriminate|reflexivity].
Defined.

(** ** What [main] hands on *)

(** X15. With the command [generate-prompt], changelogs that can be read
    and at least one release, [main] does not exit: it goes on to the
    report with the releases of the packages, in the order of the
    packages, and with the output path of the command line. *)
Theorem main_reports_releases
    (report : list LatestRelease -> option jsstring -> list Output ->
              list Output * Outcome unit)
    (h : Host) (fuel : nat) (repoRoot : jsstring) :
  nth_error (argv h) 2 = Some (js "generate-prompt") ->
  getRepoRoot h fuel = Some repoRoot ->
  readable h (join h [repoRoot; js "packages"]) MAIN_DOC_PACKAGES ->
  releasesOf h (join h [repoRoot; js "packages"]) MAIN_DOC_PACKAGES <> [] ->
  exists console,
    main report h fuel =
    Some (report
            (releasesOf h (join h [repoRoot; js "packages"])
               MAIN_DOC_PACKAGES)
            (outputPathOf h) console).
Proof.
  intros Hcmd Hroot Hr Hne. unfold main.
  rewrite (command_of_argv h _ Hcmd) by discriminate. rewrite Hroot.
  assert (jsstring_eqb (js "generate-prompt") (js "generate-prompt") = true)
    as -> by reflexivity.
  set (console0 := if includes _ _ then _ else _).
  destruct (scanPackages_readable h
              (includes (skipn 2 (argv h)) (js "--verbose"))
              (join h [repoRoot; js "packages"]) MAIN_DOC_PACKAGES []
              console0 Hr) as (console & ->).
  cbn [app].
  destruct (releasesOf h (join h [repoRoot; js "packages"])
              MAIN_DOC_PACKAGES) as [|release releases];
    [destruct (Hne eq_refl)|].
  exists console. reflexivity.
Qed.

Lemma main_reports_releases_witness :
  exists console,
    main (fun releases _ console =>
            (console ++ map (fun r => Log (version r)) releases, Return tt))
      (demoHost (Some demo)) 1 =
    Some (console ++
          map (fun r => Log (version r))
            (releasesOf (demoHost (Some demo)) (js "/repo/packages")
               MAIN_DOC_PACKAGES),
          Return tt).
Proof.
  destruct (main_reports_releases
              (fun releases _ console =>
                 (console ++ map (fun r => Log (version r)) releases,
                  Return tt))
              (demoHost (Some demo)) 1 (js "/repo") eq_refl eq_refl)
    as (console & H).
  - intros pkg [<-|[<-|[<-|[]]]] He; try discriminate He.
    vm_compute. discriminate.
  - vm_compute. discriminate.
  - exists console. exact H.
Defined.

Lemma indexOf_spec (x : jsstring) :
  forall args i,
  indexOf args x = Some i <->
  nth_error args i = Some x /\
  forall j, j < i -> nth_error args j <> Some x.
Proof.
  induction args as [|a args IH]; intros i; cbn [indexOf].
  - split; [discriminate|]. intros (H & _). destruct i; discriminate H.
  - destruct (jsstring_eqb a x) eqn:E.
    + apply jsstring_eqb_eq in E. subst a. split.
      * intros H. injection H as <-. split; [reflexivity|]. intros j Hj. lia.
      * intros (_ & Hfirst). destruct i as [|i]; [reflexivity|].
        destruct (Hfirst 0 ltac:(lia)). reflexivity.
    + apply jsstring_eqb_neq in E. destruct i as [|i].
      * split.
        -- destruct (indexOf args x); discriminate.
        -- intros (H & _). cbn in H. congruence.
      * specialize (IH i). cbn [nth_error]. split.
        -- intros H. destruct (indexOf args x) as [k|]; [|discriminate].
           injection H as ->. destruct (proj1 IH eq_refl) as (Hi & Hfirst).
           split; [exact Hi|].
           intros [|j] Hj; cbn [nth_error]; [congruence|]. apply Hfirst. lia.
        -- intros (Hi & Hfirst).
           rewrite (proj2 IH); [reflexivity|]. split; [exact Hi|].
           intros j Hj. apply (Hfirst (S j)). lia.
Qed.

(** X16. The output path is the argument that follows the first
    [--output], when there is one and it is not empty; an [--output]
    further on counts for nothing, and whatever follows the first one
    is taken, an option included. *)
Theorem output_path_parsed (h : Host) (p : jsstring) :
  outputPathOf h = Some p <->
  p <> [] /\
  exists i,
    nth_error (skipn 2 (argv h)) i = Some (js "--output") /\
    (forall j, j < i ->
       nth_error (skipn 2 (argv h)) j <> Some (js "--output")) /\
    nth_error (skipn 2 (argv h)) (i + 1) = Some p.
Proof.
  unfold outputPathOf. split.
  - destruct (indexOf (skipn 2 (argv h)) (js "--output")) as [i|] eqn:E;
      [|discriminate].
    apply indexOf_spec in E. destruct E as (Hi & Hfirst).
    destruct (nth_error (skipn 2 (argv h)) (i + 1)) as [[|c q]|] eqn:En;
      cbn [truthy]; try discriminate.
    intros H. injection H as <-. split; [discriminate|].
    exists i. repeat split; assumption.
  - intros (Hne & i & Hi & Hfirst & Hp).
    rewrite (proj2 (indexOf_spec _ _ i) (conj Hi Hfirst)), Hp.
    destruct p; [contradiction|reflexivity].
Qed.

Lemma output_path_parsed_witness :
  outputPathOf
    (mkHost [js "node"; js "src/index.ts"; js "generate-prompt";
             js "--output"; js "--verbose"; js "--output"; js "out"]
       (js "/") (fun _ => false) (fun _ => None) joinPosix
       (fun _ => js "/"))
  = Some (js "--verbose").
Proof.
  apply (proj2 (output_path_parsed _ (js "--verbose"))).
  split; [discriminate|]. exists 1. repeat split.
  intros [|j] Hj; [discriminate|lia].
Defined.

(** ** The pattern and [matchAll], in general *)

(** X1. On the pattern of the script the backtracking of the matcher
    changes nothing: at every offset of every text, the match is the
    one that a single pass finds, which takes each run of digits and
    the pre-release tag whole and each bracket when it is there. *)
Theorem pattern_needs_no_backtracking (s : jsstring) (i : nat) :
  matchAt versionHeaderRegex s i = headerAt s i /\
  capturedAt s i =
  match headerAt s i with
  | Some (mkState _ (Some (a, e))) => slice s a e
  | _ => []
  end.
Proof.
  unfold capturedAt. rewrite matchAt_versionHeaderRegex.
  split; [reflexivity|].
  destruct (headerAt s i) as [y|] eqn:E; [|reflexivity].
  apply headerAt_inv in E. destruct E as (_ & _ & _ & _ & a & e & _ & _ & ->).
  reflexivity.
Qed.

Lemma filter_seq_sorted (f : nat -> bool) :
  forall n a, StronglySorted lt (filter f (seq a n)).
Proof.
  induction n as [|n IH]; intros a; cbn [seq filter]; [constructor|].
  destruct (f a); [|apply IH].
  constructor; [apply IH|].
  apply Forall_forall. intros x Hx. apply filter_In in Hx.
  destruct Hx as (Hx & _). apply in_seq in Hx. lia.
Qed.

(** X2. [matchAll] misses no heading and yields them in the order of the
    text: a match starts at an offset exactly when the pattern matches
    there, although the search resumes at the end of each match. *)
Theorem matchAll_finds_every_heading (s : jsstring) :
  (forall i, In i (map index (matchAll versionHeaderRegex s)) <->
             isHeadingAt s i = true) /\
  StronglySorted lt (map index (matchAll versionHeaderRegex s)).
Proof.
  rewrite matchAll_headings. unfold headingOffsets. split.
  - intros i. rewrite filter_In, in_seq. split; [intros (_ & H); exact H|].
    intros H. split; [|exact H].
    destruct (isHeadingAt_inv s i H) as (_ & _ & Hhash & _).
    assert (i < length s)
      by (apply nth_error_Some; rewrite Hhash; discriminate).
    lia.
  - apply filter_seq_sorted.
Qed.

(** What a match is made of. *)
Lemma match_parts (s : jsstring) (m : MatchArray) :
  In m (matchAll versionHeaderRegex s) ->
  exists ob v cb rest y,
    (ob = [] \/ ob = [LBRACKET]) /\ (cb = [] \/ cb = [RBRACKET]) /\
    isVersion v /\
    group0 m = js "## " ++ ob ++ v ++ cb /\ group1 m = Some v /\
    skipn (index m) s = group0 m ++ rest /\
    matchAt versionHeaderRegex s (index m) = Some y /\
    endIndex y = index m + length (group0 m).
Proof.
  intros Hin. unfold matchAll in Hin.
  apply matchAllFrom_elements in Hin. destruct Hin as (y & Hy & Hm).
  set (i := index m) in *.
  pose proof Hy as Hh. rewrite matchAt_versionHeaderRegex in Hh.
  apply headerAt_inv in Hh.
  destruct Hh as (_ & H0 & H1 & H2 & a & e & Ha & He & Hyeq).
  apply versionAt_isVersion in He. destruct He as (v & Hv & Hs & He).
  apply charIs_split in H0, H1, H2.
  replace (i + 1 + 1) with (i + 2) in H1 by lia.
  replace (i + 2 + 1) with (i + 3) in H2 by lia.
  set (ob := if charIs s (i + 3) LBRACKET then [LBRACKET] else []).
  set (cb := if charIs s e RBRACKET then [RBRACKET] else []).
  assert (Hob : skipn (i + 3) s = ob ++ skipn a s /\ a = i + 3 + length ob).
  { subst ob. destruct (charIs s (i + 3) LBRACKET) eqn:E.
    - apply charIs_split in E.
      replace (i + 3 + 1) with (i + 4) in E by lia.
      subst a. split; [exact E|cbn; lia].
    - subst a. split; [reflexivity|cbn; lia]. }
  destruct Hob as (Hob & Halen).
  assert (Hcb : skipn e s = cb ++ skipn (e + length cb) s /\
                endIndex y = e + length cb).
  { subst cb y. cbn [endIndex]. destruct (charIs s e RBRACKET) eqn:E.
    - apply charIs_split in E. split; [exact E|reflexivity].
    - cbn [app length]. rewrite Nat.add_0_r. split; reflexivity. }
  destruct Hcb as (Hcb & Hend).
  assert (Hall : skipn i s =
                 (js "## " ++ ob ++ v ++ cb) ++ skipn (e + length cb) s).
  { rewrite H0, H1, H2, Hob, Hs, Hcb.
    repeat (rewrite <- app_assoc; cbn [app]). reflexivity. }
  assert (Hlen : endIndex y = i + length (js "## " ++ ob ++ v ++ cb)).
  { rewrite Hend, He, Halen, !length_app. cbn [js length map
      list_ascii_of_string]. lia. }
  assert (Hg0 : group0 m = js "## " ++ ob ++ v ++ cb).
  { rewrite Hm. cbn [toMatchArray group0]. rewrite Hlen.
    exact (slice_skipn s i _ _ Hall). }
  exists ob, v, cb, (skipn (e + length cb) s), y.
  split; [subst ob; destruct (charIs s (i + 3) LBRACKET); auto|].
  split; [subst cb; destruct (charIs s e RBRACKET); auto|].
  split; [exact Hv|]. split; [exact Hg0|]. split.
  - rewrite Hm, Hyeq. cbn [toMatchArray captures group1]. f_equal.
    rewrite He. exact (slice_skipn s a v _ Hs).
  - split; [rewrite Hg0; exact Hall|]. split; [exact Hy|].
    rewrite Hg0. exact Hlen.
Qed.

(** X3. Every match that [matchAll] yields is two hashes and a space, an
    opening bracket or none, a well-formed version, and a closing
    bracket or none; the version is what group 1 captures, and it is
    always defined. *)
Theorem match_shape (s : jsstring) (m : MatchArray) :
  In m (matchAll versionHeaderRegex s) ->
  exists ob v cb,
    (ob = [] \/ ob = [LBRACKET]) /\ (cb = [] \/ cb = [RBRACKET]) /\
    isVersion v /\
    group0 m = js "## " ++ ob ++ v ++ cb /\ group1 m = Some v /\
    exists rest, skipn (index m) s = group0 m ++ rest.
Proof.
  intros Hin.
  destruct (match_parts s m Hin)
    as (ob & v & cb & rest & y & Hob & Hcb & Hv & Hg0 & Hg1 & Hs & _).
  exists ob, v, cb. repeat (split; [assumption|]).
  exists rest. exact Hs.
Qed.

Lemma match_shape_witness :
  exists ob v cb,
    (ob = [] \/ ob = [LBRACKET]) /\ (cb = [] \/ cb = [RBRACKET]) /\
    isVersion v /\
    js "## [4.86.0]" = js "## " ++ ob ++ v ++ cb /\
    Some (js "4.86.0") = Some v /\
    exists rest, skipn 58 demo = js "## [4.86.0]" ++ rest.
Proof.
  apply (match_shape demo
           (mkMatch 58 (js "## [4.86.0]") (Some (js "4.86.0")))).
  vm_compute. right. left. reflexivity.
Defined.

(** ** The release that is returned *)

(** The code units of a heading are no white space. *)
Lemma printable_not_trimmed (c : char16) :
  (33 <= c <= 126)%N -> isTrimmed c = false.
Proof.
  intros H. unfold isTrimmed, isWhiteSpace, isLineTerminator, LF, CR, LS, PS.
  repeat match goal with
  | |- context [(c =? ?k)%N] =>
      replace (c =? k)%N with false by (symmetry; apply N.eqb_neq; lia)
  end.
  replace (8192 <=? c)%N with false by (symmetry; apply N.leb_gt; lia).
  reflexivity.
Qed.

Lemma isPreRelease_printable (c : char16) :
  isPreRelease c = true -> (33 <= c <= 126)%N.
Proof.
  unfold isPreRelease. rewrite !orb_true_iff, !andb_true_iff, !N.leb_le,
    N.eqb_eq. lia.
Qed.

Lemma isDigit_isPreRelease (c : char16) :
  isDigit c = true -> isPreRelease c = true.
Proof.
  unfold isDigit, isPreRelease. intros ->.
  rewrite !orb_true_r. reflexivity.
Qed.

Lemma all_last (p : char16 -> bool) (l : jsstring) :
  l <> [] -> forallb p l = true ->
  exists l' c, l = l' ++ [c] /\ p c = true.
Proof.
  intros Hne Hall. destruct (exists_last Hne) as (l' & c & ->).
  exists l', c. split; [reflexivity|].
  rewrite forallb_app in Hall. apply andb_true_iff in Hall.
  destruct Hall as (_ & Hc). cbn in Hc. rewrite andb_true_r in Hc.
  exact Hc.
Qed.

(** A version ends with a code unit that is no white space. *)
Lemma isVersion_last (v : jsstring) :
  isVersion v -> exists v' c, v = v' ++ [c] /\ isTrimmed c = false.
Proof.
  intros (major & minor & patch & suffix & -> & _ & _ & (Hne & Hall) & Hsuf).
  destruct Hsuf as [->|(tag & -> & Htne & Htag)].
  - destruct (all_last isDigit patch Hne Hall) as (l' & c & -> & Hc).
    exists (major ++ DOT :: minor ++ DOT :: l'), c. split.
    + rewrite app_nil_r. repeat (rewrite <- app_assoc; cbn [app]).
      reflexivity.
    + apply printable_not_trimmed, isPreRelease_printable,
        isDigit_isPreRelease, Hc.
  - destruct (all_last isPreRelease tag Htne Htag) as (l' & c & -> & Hc).
    exists (major ++ DOT :: minor ++ DOT :: patch ++ HYPHEN :: l'), c. split.
    + repeat (rewrite <- app_assoc; cbn [app]). reflexivity.
    + apply printable_not_trimmed, isPreRelease_printable, Hc.
Qed.

Lemma trimStart_app_keep (c : char16) (x : jsstring) :
  isTrimmed c = false ->
  forall y, trimStart (y ++ c :: x) = trimStart y ++ c :: x.
Proof.
  intros Hc. induction y as [|d y IH]; cbn [app trimStart].
  - rewrite Hc. reflexivity.
  - destruct (isTrimmed d); [exact IH|reflexivity].
Qed.

(** [trimEnd] does not go past a code unit that is no white space. *)
Lemma trimEnd_app_keep (a x : jsstring) (c : char16) :
  isTrimmed c = false ->
  trimEnd ((a ++ [c]) ++ x) = (a ++ [c]) ++ trimEnd x.
Proof.
  intros Hc. unfold trimEnd.
  replace (rev ((a ++ [c]) ++ x)) with (rev x ++ c :: rev a)
    by (rewrite !rev_app_distr; reflexivity).
  rewrite (trimStart_app_keep c (rev a) Hc).
  rewrite rev_app_distr. cbn [rev]. rewrite rev_involutive.
  reflexivity.
Qed.

Lemma trimStart_idempotent (l : jsstring) :
  trimStart (trimStart l) = trimStart l.
Proof.
  induction l as [|c l IH]; [reflexivity|]. cbn [trimStart].
  destruct (isTrimmed c) eqn:E; [exact IH|]. cbn [trimStart].
  rewrite E. reflexivity.
Qed.

Lemma trimStart_trimEnd (l : jsstring) :
  trimStart l = l -> trimStart (trimEnd l) = trimEnd l.
Proof.
  intros H. destruct (trimEnd_split l) as (t & Ht & _).
  destruct (trimEnd l) as [|c l'] eqn:E; [reflexivity|].
  rewrite Ht in H. cbn [app trimStart] in H. cbn [trimStart].
  destruct (isTrimmed c); [|reflexivity].
  destruct (trimStart_split (l' ++ t)) as (u & Hu & _).
  apply (f_equal (@length char16)) in H. rewrite Hu in H at 2.
  cbn [length] in H. rewrite length_app in H. lia.
Qed.

(** [trim] gives a text that [trim] leaves as it is. *)
Lemma trim_idempotent (l : jsstring) : trim (trim l) = trim l.
Proof.
  unfold trim.
  rewrite (trimStart_trimEnd (trimStart l) (trimStart_idempotent l)).
  unfold trimEnd. rewrite rev_involutive, trimStart_idempotent.
  reflexivity.
Qed.

(** The function in terms of the headings of the text. *)
Lemma extractFromContent_by_headings (s pkg : jsstring) :
  extractFromContent s pkg =
  match headingOffsets s with
  | [] => None
  | h1 :: _ =>
      if length (firstSection s) <? 50 then None
      else Some (mkRelease pkg (capturedAt s h1) (firstSection s))
  end.
Proof.
  destruct (headingOffsets s) as [|h1 rest] eqn:E.
  - pose proof (matchAll_headings s) as H. rewrite E in H.
    unfold extractFromContent.
    destruct (matchAll versionHeaderRegex s); [reflexivity|discriminate].
  - destruct (extractFromContent_headings s pkg h1 rest E)
      as (_ & _ & m & others & Hm & Hi & ->).
    unfold firstSection, sectionEnd. rewrite E.
    assert (firstGroup m = capturedAt s h1) as ->.
    { destruct (matchAllFrom_elements versionHeaderRegex s _ _ m
                  ltac:(unfold matchAll in Hm; rewrite Hm; left; reflexivity))
        as (y & Hy & Hmy).
      unfold capturedAt. rewrite <- Hi, Hy, <- Hmy. reflexivity. }
    destruct rest; reflexivity.
Qed.

Lemma headingOffsets_nonempty (s : jsstring) :
  headingOffsets s <> [] <-> exists i, isHeadingAt s i = true.
Proof.
  split.
  - destruct (headingOffsets s) as [|h1 rest] eqn:E;
      [intros H; destruct (H eq_refl)|]. intros _.
    unfold headingOffsets in E. apply filter_seq_cons in E.
    exists h1. apply E.
  - intros (i & H) E.
    destruct (isHeadingAt_inv s i H) as (_ & _ & Hhash & _).
    assert (i < length s)
      by (apply nth_error_Some; rewrite Hhash; discriminate).
    assert (Hin : In i (headingOffsets s)).
    { unfold headingOffsets. apply filter_In. split; [|exact H].
      apply in_seq. lia. }
    rewrite E in Hin. destruct Hin.
Qed.

(** X4. A release is returned exactly when the text has a version
    heading and its first section, trimmed, has 50 code units or more;
    the release then holds the name given, the version of the first
    heading and that section. *)
Theorem release_iff (h : Host) (path pkg s : jsstring) :
  readFileSync h path = Some s ->
  forall r,
  extractLatestRelease h path pkg = Return (Some r) <->
  (exists i, isHeadingAt s i = true) /\
  50 <= length (firstSection s) /\
  r = mkRelease pkg (capturedAt s (hd 0 (headingOffsets s)))
        (firstSection s).
Proof.
  intros Hread r. unfold extractLatestRelease. rewrite Hread.
  rewrite extractFromContent_by_headings, <- headingOffsets_nonempty.
  destruct (headingOffsets s) as [|h1 rest]; cbn [hd].
  - split; [discriminate|]. intros (H & _). destruct (H eq_refl).
  - destruct (Nat.ltb_spec (length (firstSection s)) 50) as [Hlt|Hge].
    + split; [discriminate|]. intros (_ & H & _). lia.
    + split.
      * intros H. injection H as <-.
        split; [discriminate|]. split; [exact Hge|reflexivity].
      * intros (_ & _ & ->). reflexivity.
Qed.

Lemma release_iff_witness :
  extractLatestRelease (demoHost (Some demo)) demoPath
    (js "instantsearch.js") =
  Return (Some (mkRelease (js "instantsearch.js")
                  (capturedAt demo (hd 0 (headingOffsets demo)))
                  (firstSection demo))).
Proof.
  apply (proj2 (release_iff (demoHost (Some demo)) demoPath
                  (js "instantsearch.js") demo eq_refl _)).
  split; [exists 0; reflexivity|]. split; [vm_compute; lia|reflexivity].
Defined.

(** The first match ends before the section does. *)
Lemma first_match_in_section (s : jsstring) (h1 : nat) (rest : list nat)
    (y : MatchState) :
  headingOffsets s = h1 :: rest ->
  matchAt versionHeaderRegex s h1 = Some y ->
  endIndex y <= match rest with h2 :: _ => h2 | [] => length s end.
Proof.
  intros H Hy. unfold headingOffsets in H. apply filter_seq_cons in H.
  destruct H as (Hh1 & _ & _ & Hrest).
  destruct rest as [|h2 rest']; [apply (matchAt_end _ _ _ _ Hy); lia|].
  symmetry in Hrest. apply filter_seq_cons in Hrest.
  destruct Hrest as (Hh2 & Hhead & _).
  destruct (Nat.le_gt_cases (endIndex y) h2) as [Hle|Hgt]; [exact Hle|].
  unfold isHeadingAt in Hhead.
  rewrite (no_match_inside s h1 h2 y Hy) in Hhead by lia. discriminate.
Qed.

Lemma slice_as_firstn (s : jsstring) (a b : nat) :
  a <= b <= length s -> slice s a b = firstn (b - a) (skipn a s).
Proof.
  intros H. unfold slice. rewrite !Nat.min_l by lia. reflexivity.
Qed.

(** The body of a release starts with the text of the heading. *)
Lemma section_starts_with_heading (s : jsstring) (h1 : nat)
    (rest : list nat) (m : MatchArray) :
  headingOffsets s = h1 :: rest ->
  In m (matchAll versionHeaderRegex s) -> index m = h1 ->
  exists ob v tail,
    (ob = [] \/ ob = [LBRACKET]) /\ isVersion v /\ group1 m = Some v /\
    trim (slice s h1 match rest with h2 :: _ => h2 | [] => length s end)
    = js "## " ++ ob ++ v ++ tail.
Proof.
  intros H Hin Hi.
  destruct (match_parts s m Hin)
    as (ob & v & cb & rest0 & y & Hob & Hcb & Hv & Hg0 & Hg1 & Hs & Hy & Hend).
  rewrite Hi in Hs, Hy, Hend.
  pose proof (first_match_in_section s h1 rest y H Hy) as Hle.
  destruct (extractFromContent_headings s [] h1 rest H) as (He & _).
  set (e := match rest with h2 :: _ => h2 | [] => length s end) in *.
  exists ob, v. rewrite (slice_as_firstn s h1 e) by lia.
  rewrite Hs, firstn_app, (firstn_all2 (n := e - h1)) by lia.
  set (x := firstn (e - h1 - length (group0 m)) rest0).
  assert (Hlast : exists g c, group0 m = g ++ [c] /\ isTrimmed c = false).
  { rewrite Hg0. destruct Hcb as [->| ->].
    - destruct (isVersion_last v Hv) as (v' & c & -> & Hc).
      exists (js "## " ++ ob ++ v'), c. split; [|exact Hc].
      rewrite app_nil_r. repeat (rewrite <- app_assoc; cbn [app]).
      reflexivity.
    - exists (js "## " ++ ob ++ v), RBRACKET. split; [|reflexivity].
      repeat (rewrite <- app_assoc; cbn [app]). reflexivity. }
  destruct Hlast as (g & c & Hg & Hc).
  assert (Htrim : trim (group0 m ++ x) = group0 m ++ trimEnd x).
  { unfold trim.
    assert (trimStart (group0 m ++ x) = group0 m ++ x) as ->
      by (rewrite Hg0; reflexivity).
    rewrite Hg. apply trimEnd_app_keep. exact Hc. }
  exists (cb ++ trimEnd x). repeat (split; [assumption|]).
  rewrite Htrim, Hg0. repeat (rewrite <- app_assoc; cbn [app]).
  reflexivity.
Qed.

(** X5. A release that is returned holds the name it was asked for, a
    body of 50 code units or more that [trim] leaves as it is, and the
    body starts with the heading itself: two hashes and a space, an
    opening bracket or none, and the version that is returned. *)
Theorem release_invariants (h : Host) (path pkg : jsstring)
    (r : LatestRelease) :
  extractLatestRelease h path pkg = Return (Some r) ->
  packageName r = pkg /\ 50 <= length (content r) /\
  trim (content r) = content r /\
  exists ob tail,
    (ob = [] \/ ob = [LBRACKET]) /\
    content r = js "## " ++ ob ++ version r ++ tail.
Proof.
  unfold extractLatestRelease.
  destruct (readFileSync h path) as [s|]; [|discriminate].
  intros H. injection H as H.
  destruct (extractFromContent_packageName s pkg r H) as (Hname & Hlen).
  split; [exact Hname|]. split; [exact Hlen|].
  destruct (headingOffsets s) as [|h1 rest] eqn:E;
    [rewrite extractFromContent_by_headings, E in H; discriminate|].
  destruct (extractFromContent_headings s pkg h1 rest E)
    as (_ & _ & m & others & Hm & Hi & Hx).
  rewrite Hx in H.
  destruct (_ <? 50); [discriminate|]. injection H as <-.
  cbn [content version]. split; [apply trim_idempotent|].
  destruct (section_starts_with_heading s h1 rest m E
              ltac:(rewrite Hm; left; reflexivity) Hi)
    as (ob & v & tail & Hob & _ & Hg1 & Hbody).
  exists ob, tail. split; [exact Hob|].
  unfold firstGroup. rewrite Hg1. exact Hbody.
Qed.

Lemma release_invariants_witness :
  js "instantsearch.js" = js "instantsearch.js" /\
  50 <= length (firstSection demo) /\
  trim (firstSection demo) = firstSection demo /\
  exists ob tail,
    (ob = [] \/ ob = [LBRACKET]) /\
    firstSection demo = js "## " ++ ob ++ js "4.87.0" ++ tail.
Proof.
  apply (release_invariants (demoHost (Some demo)) demoPath
           (js "instantsearch.js")
           (mkRelease (js "instantsearch.js") (js "4.87.0")
              (firstSection demo))).
  reflexivity.
Defined.

(** ** Texts put together *)

Lemma terminator_not_preRelease (c : char16) :
  isLineTerminator c = true -> isPreRelease c = false.
Proof.
  unfold isLineTerminator. intros H.
  repeat (apply orb_true_iff in H; destruct H as [H|H]);
    apply N.eqb_eq in H; subst c; reflexivity.
Qed.

Lemma terminator_not_digit (c : char16) :
  isLineTerminator c = true -> isDigit c = false.
Proof.
  intros H. destruct (isDigit c) eqn:E; [|reflexivity].
  apply isDigit_isPreRelease in E.
  rewrite (terminator_not_preRelease c H) in E. discriminate.
Qed.

(** A run stops at a code unit that is not of its class, whatever
    follows. *)
Lemma span_stop (p : char16 -> bool) (c : char16) (r : jsstring) :
  p c = false ->
  forall x, span p ((x ++ [c]) ++ r) = span p (x ++ [c]) /\
            span p (x ++ [c]) <= length x.
Proof.
  intros Hc. induction x as [|d x (IH1 & IH2)]; cbn [app span length].
  - rewrite Hc. split; [reflexivity|lia].
  - destruct (p d); [|split; [reflexivity|lia]].
    rewrite IH1. split; [reflexivity|lia].
Qed.

Section AppendAfterLine.

(** The text [s0 ++ [c]] ends a line, and [t] follows it. *)
Variables (s0 t : jsstring) (c : char16).
Hypothesis Hc : isLineTerminator c = true.

Lemma charIs_before (j : nat) (x : char16) :
  j < length (s0 ++ [c]) ->
  charIs ((s0 ++ [c]) ++ t) j x = charIs (s0 ++ [c]) j x.
Proof.
  intros H. unfold charIs. rewrite nth_error_app1 by exact H. reflexivity.
Qed.

Lemma charIs_next (j : nat) (x : char16) :
  charIs (s0 ++ [c]) j x = true -> isLineTerminator x = false ->
  j + 1 < length (s0 ++ [c]).
Proof.
  intros H Hx. apply charIs_nth_error in H.
  assert (Hj : j < length (s0 ++ [c]))
    by (apply nth_error_Some; rewrite H; discriminate).
  rewrite length_app in *. cbn [length] in *.
  destruct (Nat.eq_dec j (length s0)) as [->|Hne]; [|lia].
  rewrite nth_error_app2, Nat.sub_diag in H by lia.
  cbn in H. injection H as <-. congruence.
Qed.

Lemma run_before (p : char16 -> bool) (j : nat) :
  (forall ch, isLineTerminator ch = true -> p ch = false) ->
  j < length (s0 ++ [c]) ->
  run p ((s0 ++ [c]) ++ t) j = run p (s0 ++ [c]) j /\
  j + run p (s0 ++ [c]) j < length (s0 ++ [c]).
Proof.
  intros Hp Hj. rewrite length_app in *. cbn [length] in *.
  unfold run.
  assert (H1 : skipn j (s0 ++ [c]) = skipn j s0 ++ [c]).
  { rewrite skipn_app. replace (j - length s0) with 0 by lia. reflexivity. }
  assert (H2 : skipn j ((s0 ++ [c]) ++ t) = (skipn j s0 ++ [c]) ++ t).
  { rewrite skipn_app, H1, length_app. cbn [length].
    replace (j - (length s0 + 1)) with 0 by lia. reflexivity. }
  rewrite H1, H2.
  destruct (span_stop p c t (Hp c Hc) (skipn j s0)) as (-> & Hle).
  split; [reflexivity|]. rewrite length_skipn in Hle. lia.
Qed.

Lemma versionAt_before (a : nat) :
  a < length (s0 ++ [c]) ->
  versionAt ((s0 ++ [c]) ++ t) a = versionAt (s0 ++ [c]) a /\
  forall e, versionAt (s0 ++ [c]) a = Some e -> e < length (s0 ++ [c]).
Proof.
  intros Ha. unfold versionAt.
  destruct (run_before isDigit a terminator_not_digit Ha) as (-> & H1).
  set (n1 := run isDigit (s0 ++ [c]) a) in *.
  rewrite (charIs_before _ DOT H1).
  destruct (0 <? n1); cbn [andb]; [|split; [reflexivity|discriminate]].
  destruct (charIs (s0 ++ [c]) (a + n1) DOT) eqn:D1;
    [|split; [reflexivity|discriminate]].
  pose proof (charIs_next _ _ D1 eq_refl) as Hb.
  destruct (run_before isDigit _ terminator_not_digit Hb) as (-> & H2).
  set (n2 := run isDigit (s0 ++ [c]) (a + n1 + 1)) in *.
  rewrite (charIs_before _ DOT H2).
  destruct (0 <? n2); cbn [andb]; [|split; [reflexivity|discriminate]].
  destruct (charIs (s0 ++ [c]) (a + n1 + 1 + n2) DOT) eqn:D2;
    [|split; [reflexivity|discriminate]].
  pose proof (charIs_next _ _ D2 eq_refl) as Hcc.
  destruct (run_before isDigit _ terminator_not_digit Hcc) as (-> & H3).
  set (n3 := run isDigit (s0 ++ [c]) (a + n1 + 1 + n2 + 1)) in *.
  destruct (0 <? n3); [|split; [reflexivity|discriminate]].
  rewrite (charIs_before _ HYPHEN H3).
  destruct (charIs (s0 ++ [c]) (a + n1 + 1 + n2 + 1 + n3) HYPHEN) eqn:Hy;
    cbn [andb].
  - pose proof (charIs_next _ _ Hy eq_refl) as Hd.
    destruct (run_before isPreRelease _ terminator_not_preRelease Hd)
      as (-> & H4).
    split; [reflexivity|]. intros e He. injection He as <-.
    destruct (0 <? _); lia.
  - split; [reflexivity|]. intros e He. injection He as <-. exact H3.
Qed.

(** What is recognised before the end of the line does not depend on
    what follows the line. *)
Lemma headerAt_before (i : nat) :
  i < length (s0 ++ [c]) ->
  headerAt ((s0 ++ [c]) ++ t) i = headerAt (s0 ++ [c]) i.
Proof.
  intros Hi. unfold headerAt.
  assert (isLineStart ((s0 ++ [c]) ++ t) i = isLineStart (s0 ++ [c]) i) as ->.
  { destruct i as [|i]; [reflexivity|]. cbn [isLineStart].
    rewrite nth_error_app1 by lia. reflexivity. }
  destruct (isLineStart (s0 ++ [c]) i); [|reflexivity]. cbn [andb].
  rewrite (charIs_before _ HASH Hi).
  destruct (charIs (s0 ++ [c]) i HASH) eqn:C0; [|reflexivity]. cbn [andb].
  pose proof (charIs_next _ _ C0 eq_refl) as H1.
  rewrite (charIs_before _ HASH H1).
  destruct (charIs (s0 ++ [c]) (i + 1) HASH) eqn:C1; [|reflexivity].
  cbn [andb].
  pose proof (charIs_next _ _ C1 eq_refl) as H2.
  replace (i + 1 + 1) with (i + 2) in H2 by lia.
  rewrite (charIs_before _ SPACE H2).
  destruct (charIs (s0 ++ [c]) (i + 2) SPACE) eqn:C2; [|reflexivity].
  pose proof (charIs_next _ _ C2 eq_refl) as H3.
  replace (i + 2 + 1) with (i + 3) in H3 by lia.
  rewrite (charIs_before _ LBRACKET H3).
  assert (Ha : (if charIs (s0 ++ [c]) (i + 3) LBRACKET then i + 4 else i + 3)
               < length (s0 ++ [c])).
  { destruct (charIs (s0 ++ [c]) (i + 3) LBRACKET) eqn:C3; [|exact H3].
    pose proof (charIs_next _ _ C3 eq_refl) as H4. lia. }
  destruct (versionAt_before _ Ha) as (-> & Hend).
  destruct (versionAt (s0 ++ [c]) _) as [e|]; [|reflexivity].
  rewrite (charIs_before _ RBRACKET (Hend e eq_refl)). reflexivity.
Qed.

End AppendAfterLine.

Section AppendAfter.

(** The text [t] after any text [s]. *)
Variables s t : jsstring.

Lemma skipn_after (j : nat) : skipn (length s + j) (s ++ t) = skipn j t.
Proof.
  rewrite skipn_app, skipn_all2 by lia.
  replace (length s + j - length s) with j by lia. reflexivity.
Qed.

Lemma nth_error_after (j : nat) :
  nth_error (s ++ t) (length s + j) = nth_error t j.
Proof.
  rewrite nth_error_app2 by lia.
  replace (length s + j - length s) with j by lia. reflexivity.
Qed.

Lemma charIs_after (j : nat) (x : char16) :
  charIs (s ++ t) (length s + j) x = charIs t j x.
Proof. unfold charIs. rewrite nth_error_after. reflexivity. Qed.

Lemma run_after (p : char16 -> bool) (j : nat) :
  run p (s ++ t) (length s + j) = run p t j.
Proof. unfold run. rewrite skipn_after. reflexivity. Qed.

Lemma versionAt_after (a : nat) :
  versionAt (s ++ t) (length s + a)
  = option_map (Nat.add (length s)) (versionAt t a).
Proof.
  unfold versionAt. rewrite run_after.
  set (n1 := run isDigit t a).
  replace (length s + a + n1) with (length s + (a + n1)) by lia.
  rewrite charIs_after.
  destruct ((0 <? n1) && charIs t (a + n1) DOT); [|reflexivity].
  replace (length s + (a + n1) + 1) with (length s + (a + n1 + 1)) by lia.
  rewrite run_after. set (n2 := run isDigit t (a + n1 + 1)).
  replace (length s + (a + n1 + 1) + n2)
    with (length s + (a + n1 + 1 + n2)) by lia.
  rewrite charIs_after.
  destruct ((0 <? n2) && charIs t (a + n1 + 1 + n2) DOT); [|reflexivity].
  replace (length s + (a + n1 + 1 + n2) + 1)
    with (length s + (a + n1 + 1 + n2 + 1)) by lia.
  rewrite run_after. set (n3 := run isDigit t (a + n1 + 1 + n2 + 1)).
  destruct (0 <? n3); [|reflexivity].
  replace (length s + (a + n1 + 1 + n2 + 1) + n3)
    with (length s + (a + n1 + 1 + n2 + 1 + n3)) by lia.
  rewrite charIs_after.
  replace (length s + (a + n1 + 1 + n2 + 1 + n3) + 1)
    with (length s + (a + n1 + 1 + n2 + 1 + n3 + 1)) by lia.
  rewrite run_after. cbn [option_map]. f_equal.
  destruct (charIs t (a + n1 + 1 + n2 + 1 + n3) HYPHEN && _); lia.
Qed.

(** What is recognised in [t] is recognised after [s], where lines
    start at the same places. *)
Lemma headerAt_after (k : nat) :
  isLineStart (s ++ t) (length s + k) = isLineStart t k ->
  headerAt (s ++ t) (length s + k)
  = option_map (shiftState (length s)) (headerAt t k).
Proof.
  intros Hstart. unfold headerAt. rewrite Hstart, charIs_after.
  replace (length s + k + 1) with (length s + (k + 1)) by lia.
  replace (length s + k + 2) with (length s + (k + 2)) by lia.
  replace (length s + k + 3) with (length s + (k + 3)) by lia.
  replace (length s + k + 4) with (length s + (k + 4)) by lia.
  rewrite !charIs_after.
  destruct (isLineStart t k && charIs t k HASH && charIs t (k + 1) HASH
            && charIs t (k + 2) SPACE); [|reflexivity].
  replace (if charIs t (k + 3) LBRACKET
           then length s + (k + 4) else length s + (k + 3))
    with (length s + (if charIs t (k + 3) LBRACKET then k + 4 else k + 3))
    by (destruct (charIs t (k + 3) LBRACKET); reflexivity).
  rewrite versionAt_after.
  destruct (versionAt t _) as [e|]; [|reflexivity].
  cbn [option_map]. rewrite charIs_after. unfold shiftState.
  cbn [endIndex captures]. f_equal. f_equal.
  destruct (charIs t e RBRACKET); lia.
Qed.

Lemma slice_after (a b : nat) :
  slice (s ++ t) (length s + a) (length s + b) = slice t a b.
Proof.
  unfold slice. rewrite length_app.
  replace (Nat.min (length s + a) (length s + length t))
    with (length s + Nat.min a (length t)) by lia.
  replace (Nat.min (length s + b) (length s + length t))
    with (length s + Nat.min b (length t)) by lia.
  rewrite skipn_after. f_equal. lia.
Qed.

Lemma slice_before (a b : nat) :
  b <= length s -> slice (s ++ t) a b = slice s a b.
Proof.
  intros Hb. unfold slice. rewrite length_app.
  rewrite (Nat.min_l b (length s + length t)), (Nat.min_l b (length s))
    by lia.
  destruct (Nat.le_gt_cases a b) as [Hab|Hab].
  - rewrite (Nat.min_l a (length s + length t)), (Nat.min_l a (length s))
      by lia.
    rewrite skipn_app, firstn_app, length_skipn.
    replace (b - a - (length s - a)) with 0 by lia.
    cbn [firstn]. apply app_nil_r.
  - replace (b - Nat.min a (length s + length t)) with 0 by lia.
    replace (b - Nat.min a (length s)) with 0 by lia. reflexivity.
Qed.

End AppendAfter.

Lemma isHeadingAt_headerAt (s : jsstring) (i : nat) :
  isHeadingAt s i = match headerAt s i with Some _ => true | None => false end.
Proof. unfold isHeadingAt. rewrite matchAt_versionHeaderRegex. reflexivity. Qed.

Lemma capturedAt_headerAt (s : jsstring) (i : nat) :
  capturedAt s i =
  match headerAt s i with
  | Some y => match captures y with
              | Some (a, e) => slice s a e
              | None => []
              end
  | None => []
  end.
Proof.
  unfold capturedAt. rewrite matchAt_versionHeaderRegex.
  destruct (headerAt s i) as [y|]; [|reflexivity].
  unfold firstGroup. cbn [toMatchArray group1].
  destruct (captures y) as [[a e]|]; reflexivity.
Qed.

Lemma isLineStart_after (s t : jsstring) (k : nat) :
  s = [] \/ endsLine s ->
  isLineStart (s ++ t) (length s + k) = isLineStart t k.
Proof.
  intros Hs. destruct k as [|k].
  - rewrite Nat.add_0_r. destruct Hs as [->|(s0 & c & -> & Hc)];
      [reflexivity|].
    rewrite length_app. cbn [length]. rewrite Nat.add_1_r.
    cbn [isLineStart]. rewrite nth_error_app1
      by (rewrite length_app; cbn; lia).
    rewrite nth_error_app2, Nat.sub_diag by lia. exact Hc.
  - rewrite Nat.add_succ_r. cbn [isLineStart].
    rewrite nth_error_after. reflexivity.
Qed.

Lemma filter_seq_shift (f g : nat -> bool) (a : nat) :
  (forall k, f (a + k) = g k) ->
  forall n, filter f (seq a n) = map (Nat.add a) (filter g (seq 0 n)).
Proof.
  intros H. induction n as [|n IH]; [reflexivity|].
  rewrite !seq_S, !filter_app, map_app, IH. f_equal.
  cbn [filter Nat.add]. rewrite H. destruct (g n); reflexivity.
Qed.

(** The headings of two texts put together, when the first one is empty
    or ends a line: those of the first, then those of the second. *)
Lemma headingOffsets_app (s t : jsstring) :
  s = [] \/ endsLine s ->
  headingOffsets (s ++ t)
  = headingOffsets s ++ map (Nat.add (length s)) (headingOffsets t).
Proof.
  intros Hs. unfold headingOffsets. rewrite length_app.
  replace (S (length s + length t)) with (length s + S (length t)) by lia.
  rewrite seq_app, filter_app, (seq_S (length s) 0), filter_app.
  cbn [Nat.add].
  f_equal; [|apply filter_seq_shift].
  - assert (isHeadingAt s (length s) = false) as Hend.
    { destruct (isHeadingAt s (length s)) eqn:E; [|reflexivity].
      destruct (isHeadingAt_inv s _ E) as (_ & _ & Hhash & _).
      assert (length s < length s)
        by (apply nth_error_Some; rewrite Hhash; discriminate).
      lia. }
    cbn [filter]. rewrite Hend, app_nil_r.
    apply filter_ext_in. intros i Hi. apply in_seq in Hi.
    destruct Hs as [->|(s0 & c & -> & Hc)]; [cbn in Hi; lia|].
    rewrite !isHeadingAt_headerAt, headerAt_before by (exact Hc || lia).
    reflexivity.
  - intros k. rewrite !isHeadingAt_headerAt, headerAt_after
      by (apply isLineStart_after; exact Hs).
    destruct (headerAt t k); reflexivity.
Qed.

Lemma capturedAt_after (s t : jsstring) (k : nat) :
  s = [] \/ endsLine s ->
  capturedAt (s ++ t) (length s + k) = capturedAt t k.
Proof.
  intros Hs. rewrite !capturedAt_headerAt.
  rewrite headerAt_after by (apply isLineStart_after; exact Hs).
  destruct (headerAt t k) as [y|]; [|reflexivity].
  cbn [option_map]. unfold shiftState. cbn [captures].
  destruct (captures y) as [[a e]|]; [|reflexivity].
  apply slice_after.
Qed.

Lemma capturedAt_before (s t : jsstring) (i : nat) :
  endsLine s -> i < length s ->
  capturedAt (s ++ t) i = capturedAt s i.
Proof.
  intros (s0 & c & -> & Hc) Hi. rewrite !capturedAt_headerAt.
  rewrite headerAt_before by assumption.
  destruct (headerAt (s0 ++ [c]) i) as [y|] eqn:E; [|reflexivity].
  pose proof E as Hend. rewrite <- matchAt_versionHeaderRegex in Hend.
  apply matchAt_end in Hend; [|lia].
  apply headerAt_inv in E.
  destruct E as (_ & _ & _ & _ & a & e & _ & _ & ->).
  cbn [captures endIndex] in *. apply slice_before.
  destruct (charIs (s0 ++ [c]) e RBRACKET); lia.
Qed.

(** X7. What stands before the first heading counts for nothing: a text
    without heading that ends a line, such as a title and an
    introduction, put in front of a changelog gives the same result as
    the changelog alone. *)
Theorem preamble_ignored (h : Host) (path path' pkg p s : jsstring) :
  endsLine p -> (forall i, isHeadingAt p i = false) ->
  readFileSync h path = Some (p ++ s) ->
  readFileSync h path' = Some s ->
  extractLatestRelease h path pkg = extractLatestRelease h path' pkg.
Proof.
  intros Hp Hnone Hread Hread'. unfold extractLatestRelease.
  rewrite Hread, Hread'. f_equal.
  rewrite !extractFromContent_by_headings.
  unfold firstSection, sectionEnd.
  rewrite (headingOffsets_app p s (or_intror Hp)).
  assert (headingOffsets p = []) as ->.
  { destruct (headingOffsets p) as [|x l] eqn:E; [reflexivity|].
    unfold headingOffsets in E. apply filter_seq_cons in E.
    destruct E as (_ & Hx & _). rewrite Hnone in Hx. discriminate. }
  cbn [app]. destruct (headingOffsets s) as [|h1 rest]; [reflexivity|].
  cbn [map]. rewrite (capturedAt_after p s h1 (or_intror Hp)).
  assert ((match map (Nat.add (length p)) rest with
           | [] => length (p ++ s)
           | h2 :: _ => h2
           end) = length p + match rest with
                             | [] => length s
                             | h2 :: _ => h2
                             end) as ->
    by (destruct rest; [apply length_app|reflexivity]).
  rewrite slice_after. reflexivity.
Qed.

Lemma preamble_ignored_witness :
  extractLatestRelease
    (mkHost [] (js "/") (fun _ => true)
       (fun p => if jsstring_eqb p demoPath
                 then Some ((js "# Changelog" ++ [LF; LF]) ++ demo)
                 else Some demo)
       joinPosix (fun _ => js "/"))
    demoPath (js "instantsearch.js")
  = extractLatestRelease
      (mkHost [] (js "/") (fun _ => true)
         (fun p => if jsstring_eqb p demoPath
                   then Some ((js "# Changelog" ++ [LF; LF]) ++ demo)
                   else Some demo)
         joinPosix (fun _ => js "/"))
      (js "other") (js "instantsearch.js").
Proof.
  apply (preamble_ignored _ demoPath (js "other") (js "instantsearch.js")
           (js "# Changelog" ++ [LF; LF]) demo).
  - exists (js "# Changelog" ++ [LF]), LF. split; reflexivity.
  - intros i. rewrite isHeadingAt_headerAt. unfold headerAt.
    do 15 (destruct i as [|i]; [reflexivity|]). reflexivity.
  - reflexivity.
  - reflexivity.
Defined.

(** X8. What stands after the first section counts for nothing: after a
    text that ends a line and has two headings or more, anything may
    follow, and after a text that ends a line and has one heading,
    anything that starts with a heading, such as older entries; the
    result is that of the text alone. *)
Theorem later_text_ignored (h : Host) (path path' pkg s t : jsstring) :
  endsLine s ->
  (exists h1 h2 rest, headingOffsets s = h1 :: h2 :: rest) \/
  ((exists h1, headingOffsets s = [h1]) /\ isHeadingAt t 0 = true) ->
  readFileSync h path = Some (s ++ t) ->
  readFileSync h path' = Some s ->
  extractLatestRelease h path pkg = extractLatestRelease h path' pkg.
Proof.
  intros Hs Hcase Hread Hread'. unfold extractLatestRelease.
  rewrite Hread, Hread'. f_equal.
  rewrite !extractFromContent_by_headings.
  unfold firstSection, sectionEnd.
  rewrite (headingOffsets_app s t (or_intror Hs)).
  destruct Hcase as [(h1 & h2 & rest & E)|((h1 & E) & Ht)]; rewrite E;
    cbn [app].
  - pose proof E as Hin. unfold headingOffsets in Hin.
    apply filter_seq_cons in Hin. destruct Hin as (Hh1 & _ & _ & Hrest).
    symmetry in Hrest. apply filter_seq_cons in Hrest.
    destruct Hrest as (Hh2 & _).
    rewrite (capturedAt_before s t h1 Hs) by lia.
    rewrite slice_before by lia. reflexivity.
  - pose proof E as Hin. unfold headingOffsets in Hin.
    apply filter_seq_cons in Hin. destruct Hin as (Hh1 & Hhead & _).
    destruct (isHeadingAt_inv s h1 Hhead) as (_ & _ & Hhash & _).
    assert (h1 < length s)
      by (apply nth_error_Some; rewrite Hhash; discriminate).
    destruct (headingOffsets_first t 0 ltac:(intros j Hj; lia) Ht)
      as (rest' & ->).
    cbn [map]. rewrite Nat.add_0_r.
    rewrite (capturedAt_before s t h1 Hs) by lia.
    rewrite slice_before by lia. reflexivity.
Qed.

Lemma later_text_ignored_witness :
  extractLatestRelease
    (mkHost [] (js "/") (fun _ => true)
       (fun p => if jsstring_eqb p demoPath
                 then Some (demo ++ js "## [4.85.0]")
                 else Some demo)
       joinPosix (fun _ => js "/"))
    demoPath (js "instantsearch.js")
  = extractLatestRelease
      (mkHost [] (js "/") (fun _ => true)
         (fun p => if jsstring_eqb p demoPath
                   then Some (demo ++ js "## [4.85.0]")
                   else Some demo)
         joinPosix (fun _ => js "/"))
      (js "other") (js "instantsearch.js").
Proof.
  apply (later_text_ignored _ demoPath (js "other") (js "instantsearch.js")
           demo (js "## [4.85.0]")).
  - exists (removelast demo), LF. split; reflexivity.
  - left. exists 0, 58, []. reflexivity.
  - reflexivity.
  - reflexivity.
Defined.

(** X6. The version of the first heading is returned as it is written:
    for any MAJOR.MINOR.PATCH, with a pre-release suffix or without,
    between brackets or not, followed by the end of the text or by a
    code unit that is no letter, digit, dot or hyphen, the release that
    is returned has that version. *)
Theorem version_returned_verbatim (h : Host) (path pkg s : jsstring)
    (h1 : nat) (ob : bool) (v tail : jsstring) :
  readFileSync h path = Some s ->
  (forall j, j < h1 -> isHeadingAt s j = false) ->
  isLineStart s h1 = true ->
  isVersion v -> boundary tail = true ->
  skipn h1 s = js "## " ++ (if ob then [LBRACKET] else []) ++ v ++ tail ->
  isHeadingAt s h1 = true /\
  extractLatestRelease h path pkg =
  Return (if length (firstSection s) <? 50 then None
          else Some (mkRelease pkg v (firstSection s))).
Proof.
  intros Hread Hbefore Hstart Hv Htail Hs.
  destruct (first_heading_version s pkg h1 ob v tail Hbefore Hstart Hs Hv
              Htail) as ((rest & Hrest) & Hx).
  split.
  - unfold headingOffsets in Hrest. apply filter_seq_cons in Hrest.
    apply Hrest.
  - unfold extractLatestRelease. rewrite Hread, Hx. reflexivity.
Qed.

Lemma version_returned_verbatim_witness :
  isHeadingAt (js "# Changelog" ++ LF :: underHeading (js "## 10.0.12 (2024)"))
    12 = true /\
  extractLatestRelease
    (demoHost
       (Some (js "# Changelog" ++ LF ::
              underHeading (js "## 10.0.12 (2024)"))))
    demoPath (js "instantsearch.js") =
  Return (Some (mkRelease (js "instantsearch.js") (js "10.0.12")
                  (js "## 10.0.12 (2024)" ++ LF :: js "- Added widget X" ++
                   LF :: js "- Fixed bug Y in component Z"))).
Proof.
  destruct (version_returned_verbatim
              (demoHost
                 (Some (js "# Changelog" ++ LF ::
                        underHeading (js "## 10.0.12 (2024)"))))
              demoPath (js "instantsearch.js")
              (js "# Changelog" ++ LF :: underHeading (js "## 10.0.12 (2024)"))
              12 false (js "10.0.12") (js " (2024)" ++ LF :: notes) eq_refl)
    as (Hhead & Hx).
  - intros j Hj. rewrite isHeadingAt_headerAt. unfold headerAt.
    do 12 (destruct j as [|j]; [reflexivity|]). lia.
  - reflexivity.
  - exists (js "10"), (js "0"), (js "12"), [].
    repeat split; try discriminate. left. reflexivity.
  - reflexivity.
  - reflexivity.
  - split; [exact Hhead|]. rewrite Hx. reflexivity.
Defined.

Lemma matchAll_finds_every_heading_witness :
  In 58 (map index (matchAll versionHeaderRegex demo)) /\
  ~ In 12 (map index (matchAll versionHeaderRegex demo)).
Proof.
  destruct (matchAll_finds_every_heading demo) as (Hiff & _). split.
  - apply (proj2 (Hiff 58)). reflexivity.
  - intros H. apply (proj1 (Hiff 12)) in H. discriminate H.
Defined.

(** ** The section in the text *)

Lemma trimStart_head (l : jsstring) :
  trimStart l = [] \/
  exists c y, trimStart l = c :: y /\ isTrimmed c = false.
Proof.
  induction l as [|c l IH]; [left; reflexivity|]. cbn [trimStart].
  destruct (isTrimmed c) eqn:E; [exact IH|].
  right. exists c, l. split; [reflexivity|exact E].
Qed.

(** What [trimEnd] keeps does not end with white space. *)
Lemma trimEnd_last (l : jsstring) (d : char16) :
  trimEnd l = [] \/ isTrimmed (last (trimEnd l) d) = false.
Proof.
  unfold trimEnd.
  destruct (trimStart_head (rev l)) as [->|(c & y & -> & Hc)];
    [left; reflexivity|].
  right. cbn [rev]. rewrite last_last. exact Hc.
Qed.

(** A text is what stands before an interval, the interval, and what
    stands after it. *)
Lemma text_around_slice (s : jsstring) (a b : nat) :
  a <= b <= length s ->
  s = firstn a s ++ slice s a b ++ skipn b s /\
  length (firstn a s) = a /\ length (slice s a b) = b - a.
Proof.
  intros H. rewrite (slice_as_firstn s a b H). split; [|split].
  - rewrite <- (firstn_skipn a s) at 1. f_equal.
    rewrite <- (firstn_skipn (b - a) (skipn a s)) at 1. f_equal.
    rewrite skipn_skipn. f_equal. lia.
  - rewrite length_firstn. lia.
  - rewrite length_firstn, length_skipn. lia.
Qed.

(** C1. In a text with at least one version heading, the section starts
    at the offset of the first heading and ends at the offset of the
    second heading when there is one, at the end of the text otherwise.
    The text is what stands before the first heading, then the body,
    then white space up to the end of the section, then the rest: the
    body starts with the hash of the first heading, ends with a code
    unit that is no white space, and holds no code unit of the second
    heading's line or after it. That body is returned whenever it has
    50 code units or more. *)
Theorem section_between_headings (h : Host) (path pkg s : jsstring)
    (h1 : nat) (rest : list nat) :
  readFileSync h path = Some s ->
  headingOffsets s = h1 :: rest ->
  let e := match rest with h2 :: _ => h2 | [] => length s end in
  h1 < e <= length s /\
  exists before body white after v,
    s = before ++ body ++ white ++ after /\
    length before = h1 /\
    length (before ++ body ++ white) = e /\
    forallb isTrimmed white = true /\
    hd_error body = Some HASH /\
    isTrimmed (last body HASH) = false /\
    extractLatestRelease h path pkg =
    Return (if length body <? 50 then None
            else Some (mkRelease pkg v body)).
Proof.
  intros Hread H e.
  destruct (extractFromContent_headings s pkg h1 rest H)
    as (He & (white & Hslice & Hwhite) & m & others & _ & _ & Hx).
  fold e in He, Hslice, Hx. split; [exact He|].
  destruct (text_around_slice s h1 e ltac:(lia)) as (Hs & Hbefore & Hlen).
  exists (firstn h1 s), (trim (slice s h1 e)), white, (skipn e s),
    (firstGroup m).
  assert (Hhash : nth_error s h1 = Some HASH).
  { unfold headingOffsets in H. apply filter_seq_cons in H.
    destruct H as (_ & Hhead & _).
    destruct (isHeadingAt_inv s h1 Hhead) as (_ & _ & Hhash & _).
    exact Hhash. }
  assert (Hbody : trim (slice s h1 e) = trimEnd (slice s h1 e))
    by (rewrite (slice_cons s h1 e HASH Hhash) by lia; reflexivity).
  split.
  { pose proof Hs as Hs'. rewrite Hslice in Hs' at 1.
    rewrite <- app_assoc in Hs'. exact Hs'. }
  split; [exact Hbefore|]. split.
  - rewrite <- Hslice, length_app, Hbefore, Hlen. lia.
  - split; [exact Hwhite|].
    assert (Hne : hd_error (trim (slice s h1 e)) = Some HASH).
    { rewrite Hbody.
      destruct (trimEnd_split (slice s h1 e)) as (t & Ht & Htw).
      pose proof (slice_cons s h1 e HASH Hhash ltac:(lia)) as Hcons.
      rewrite Hcons in Ht at 1.
      destruct (trimEnd (slice s h1 e)) as [|c body'].
      - cbn [app] in Ht. rewrite <- Ht in Htw. discriminate Htw.
      - cbn [app] in Ht. injection Ht as <- _. reflexivity. }
    split; [exact Hne|]. split.
    + rewrite Hbody in *.
      destruct (trimEnd_last (slice s h1 e) HASH) as [Hnil|Hlast];
        [rewrite Hnil in Hne; discriminate Hne|exact Hlast].
    + unfold extractLatestRelease. rewrite Hread, Hx. reflexivity.
Qed.

Lemma section_between_headings_witness :
  0 < 58 <= length demo /\
  exists before white after,
    demo = before ++
           (js "## [4.87.0]" ++ LF :: js "- Added widget X" ++ LF ::
            js "- Fixed bug Y in component Z") ++ white ++ after /\
    length before = 0 /\
    length (before ++
            (js "## [4.87.0]" ++ LF :: js "- Added widget X" ++ LF ::
             js "- Fixed bug Y in component Z") ++ white) = 58 /\
    forallb isTrimmed white = true /\
    extractLatestRelease (demoHost (Some demo)) demoPath
      (js "instantsearch.js") =
    Return (Some (mkRelease (js "instantsearch.js") (js "4.87.0")
                    (js "## [4.87.0]" ++ LF :: js "- Added widget X" ++
                     LF :: js "- Fixed bug Y in component Z"))).
Proof.
  destruct (section_between_headings (demoHost (Some demo)) demoPath
              (js "instantsearch.js") demo 0 [58] eq_refl eq_refl)
    as (He & before & body & white & after & v & Hs & Hb & Hlen & Hw & _
        & _ & Hx).
  split; [exact He|].
  assert (Hr : extractLatestRelease (demoHost (Some demo)) demoPath
                 (js "instantsearch.js") =
               Return (Some (mkRelease (js "instantsearch.js") (js "4.87.0")
                    (js "## [4.87.0]" ++ LF :: js "- Added widget X" ++
                     LF :: js "- Fixed bug Y in component Z"))))
    by reflexivity.
  rewrite Hr in Hx. destruct (length body <? 50); [discriminate Hx|].
  injection Hx as Hv Hbody. subst body.
  exists before, white, after. repeat split; assumption.
Defined.

(** ** What extraction can throw *)

(** No statement of the body throws, whatever the text: an element is
    read only below the length that was tested, and group 1 took part
    in every match. *)
Lemma extractStatements_normal (text pkg : jsstring) :
  extractStatements text pkg
  = Normal (option_map objectOf (extractFromContent text pkg)).
Proof.
  unfold extractStatements, extractFromContent, matchAllOf,
    versionHeaderRegExp.
  cbn [global pattern].
  destruct (matchAll versionHeaderRegex text) as [|m others] eqn:E;
    [reflexivity|].
  cbn [length Nat.eqb nth_error getOf].
  assert (Hg : group1 m = Some (firstGroup m)).
  { destruct (matchAllFrom_elements versionHeaderRegex text _ _ m
                ltac:(unfold matchAll in E; rewrite E; left; reflexivity))
      as (y & Hy & Hm).
    destruct (matchAt_version text _ y Hy) as (v & _ & Hv).
    rewrite <- Hm in Hv. unfold firstGroup. rewrite Hv. reflexivity. }
  destruct others as [|second others];
    cbn [length Nat.ltb Nat.leb nth_error getOf]; cbv zeta; rewrite Hg;
    match goal with
    | |- context [?n <=? 49] => destruct (n <=? 49)
    end; reflexivity.
Qed.

(** A text gives no release exactly when it has no heading or a first
    section that is too short. *)
Lemma extractFromContent_none (s pkg : jsstring) :
  extractFromContent s pkg = None <->
  (forall i, isHeadingAt s i = false) \/ length (firstSection s) < 50.
Proof.
  rewrite extractFromContent_by_headings.
  destruct (headingOffsets s) as [|h1 rest] eqn:E.
  - split; [intros _; left|reflexivity].
    intros i. destruct (isHeadingAt s i) eqn:Ei; [|reflexivity].
    destruct (proj2 (headingOffsets_nonempty s)
                (ex_intro _ i Ei) E).
  - destruct (Nat.ltb_spec (length (firstSection s)) 50) as [Hlt|Hge].
    + split; [intros _; right; exact Hlt|reflexivity].
    + split; [discriminate|]. intros [Hnone|Hlt]; [|lia].
      assert (Hne : headingOffsets s <> []) by (rewrite E; discriminate).
      apply headingOffsets_nonempty in Hne. destruct Hne as (i & Hi).
      rewrite Hnone in Hi. discriminate Hi.
Qed.

(** C7. Extraction throws nothing of its own. Taken statement by
    statement, with a TypeError for each element or property read from
    [undefined], the body ends normally on every text, with the result
    of [extractFromContent] and a version that is never [undefined]. A
    text that was read gives a returned value; it is the absent one
    exactly for a malformed text, one without heading or with a first
    section under 50 code units. Only a file that cannot be read makes
    the function throw, which is not the absent result; [main] does not
    catch it, and the script reports the error and exits with status
    1. *)
Theorem extraction_never_throws :
  (forall text pkg,
     extractStatements text pkg
     = Normal (option_map objectOf (extractFromContent text pkg))) /\
  (forall h path pkg s,
     readFileSync h path = Some s ->
     extractLatestRelease h path pkg = Return (extractFromContent s pkg)) /\
  (forall h path pkg s,
     readFileSync h path = Some s ->
     (extractLatestRelease h path pkg = Return None <->
      (forall i, isHeadingAt s i = false) \/ length (firstSection s) < 50)) /\
  (forall h path pkg,
     readFileSync h path = None ->
     extractLatestRelease h path pkg = Throw (ReadError path) /\
     extractLatestRelease h path pkg <> Return None) /\
  (forall report h fuel repoRoot pkg,
     nth_error (argv h) 2 = Some (js "generate-prompt") ->
     getRepoRoot h fuel = Some repoRoot ->
     In pkg MAIN_DOC_PACKAGES ->
     existsSync h (changelogOf h repoRoot pkg) = true ->
     readFileSync h (changelogOf h repoRoot pkg) = None ->
     exists console e,
       script report h fuel = Some (console ++ [ErrorLog e], Exit 1)).
Proof.
  split; [exact extractStatements_normal|]. split; [|split; [|split]].
  - intros h path pkg s Hread. unfold extractLatestRelease.
    rewrite Hread. reflexivity.
  - intros h path pkg s Hread. unfold extractLatestRelease. rewrite Hread.
    rewrite <- (extractFromContent_none s pkg). split.
    + intros H. injection H as H. exact H.
    + intros ->. reflexivity.
  - intros h path pkg Hread. unfold extractLatestRelease.
    rewrite Hread. split; [reflexivity|discriminate].
  - intros report h fuel repoRoot pkg Hcmd Hroot Hin Hex Hread.
    unfold script, main.
    rewrite (command_of_argv h _ Hcmd) by discriminate. rewrite Hroot.
    assert (jsstring_eqb (js "generate-prompt") (js "generate-prompt")
            = true) as -> by reflexivity.
    set (console0 := if includes _ _ then _ else _).
    destruct (scanPackages_throw h
                (includes (skipn 2 (argv h)) (js "--verbose"))
                (join h [repoRoot; js "packages"]) MAIN_DOC_PACKAGES []
                console0) as (console & e & Hscan).
    { exists pkg. repeat split; assumption. }
    rewrite Hscan. exists console, e. reflexivity.
Qed.

Lemma extraction_never_throws_witness :
  extractStatements demo (js "instantsearch.js") =
  Normal (Some (mkObject (js "instantsearch.js") (Some (js "4.87.0"))
                  (js "## [4.87.0]" ++ LF :: js "- Added widget X" ++ LF ::
                   js "- Fixed bug Y in component Z"))) /\
  extractLatestRelease (demoHost (Some (js "not a changelog"))) demoPath
    (js "instantsearch.js") = Return None /\
  extractLatestRelease (demoHost (Some bumpOnly)) demoPath
    (js "instantsearch.js") = Return None /\
  extractLatestRelease (demoHost None) demoPath (js "instantsearch.js")
  = Throw (ReadError demoPath) /\
  exists console e,
    script (fun _ _ console => (console, Return tt)) (demoHost None) 1
    = Some (console ++ [ErrorLog e], Exit 1).
Proof.
  destruct extraction_never_throws
    as (Hbody & Hret & Hnone & Hthrow & Hmain).
  split; [rewrite Hbody; reflexivity|]. split; [|split; [|split]].
  - rewrite (Hret (demoHost (Some (js "not a changelog"))) demoPath
               (js "instantsearch.js") (js "not a changelog") eq_refl).
    reflexivity.
  - apply (proj2 (Hnone (demoHost (Some bumpOnly)) demoPath
                    (js "instantsearch.js") bumpOnly eq_refl)).
    right. vm_compute. lia.
  - apply (Hthrow (demoHost None) demoPath (js "instantsearch.js")).
    reflexivity.
  - apply (Hmain _ (demoHost None) 1 (js "/repo") (js "instantsearch.js"));
      try reflexivity.
    left. reflexivity.
Defined.
